(** * Mapping the Allen Mouse 3D atlas to individual sections

    A shallow embedding of the notebook [mapping_atlas_by_voxel.ipynb]:
    numpy's float64 arithmetic is IEEE 754 binary64 ([spec_float] with
    precision 53 and exponent bound 1024), Python exceptions are an error
    sum, the notebook's global names are a finite map, and the two images
    the last cell mutates are threaded through the loop as explicit state. *)

From Stdlib Require Import ZArith List Bool Lia String Sorted Permutation.
From Stdlib Require Import Floats.SpecFloat.
From stdpp Require Import gmap strings list pretty.

Local Open Scope Z_scope.

(** ** float64 *)

Module F64.

Definition prec : Z := 53.
Definition emax : Z := 1024.

Definition t := spec_float.

(** Conversion of a Python [int] (or an integer array entry) to float64:
    round to nearest, ties to even; exact below [2^53]. *)
Definition of_Z (n : Z) : t := binary_normalize prec emax n 0 false.

Definition add : t -> t -> t := SFadd prec emax.
Definition mul : t -> t -> t := SFmul prec emax.
Definition div : t -> t -> t := SFdiv prec emax.
Definition eqb : t -> t -> bool := SFeqb.

(** A decimal literal [m / 10^k], read as Python reads it: the nearest
    float64.  Both [m] and [10^k] are exact for the literals used here and
    the division is correctly rounded. *)
Definition of_decimal (m : Z) (k : nat) : t :=
  div (of_Z m) (of_Z (10 ^ Z.of_nat k)).

(** Magnitude of the nearest integer to [m / 2^k], ties to even. *)
Definition round_half_even (m : Z) (k : Z) : Z :=
  let q := m / 2 ^ k in
  let r := m mod 2 ^ k in
  match Z.compare (2 * r) (2 ^ k) with
  | Lt => q
  | Gt => q + 1
  | Eq => if Z.even q then q else q + 1
  end.

(** [np.round(x)] with the default [decimals=0] is [rint]: nearest
    integer, ties to even, the sign kept on a zero result; infinities and
    NaN pass through. *)
Definition rint (x : t) : t :=
  match x with
  | S754_finite s m e =>
      if 0 <=? e then x
      else binary_normalize prec emax
             (cond_Zopp s (round_half_even (Zpos m) (- e))) 0 s
  | _ => x
  end.

Definition int64_min : Z := - 2 ^ 63.

(** [x.astype(int)]: truncation toward zero; what does not fit int64 (and
    NaN, infinities) comes out as the minimum int64 on x86-64. *)
Definition astype_int (x : t) : Z :=
  match x with
  | S754_zero _ => 0
  | S754_finite s m e =>
      let n := if 0 <=? e then Zpos m * 2 ^ e else Zpos m / 2 ^ (- e) in
      let v := cond_Zopp s n in
      if (int64_min <=? v) && (v <? 2 ^ 63) then v else int64_min
  | _ => int64_min
  end.

End F64.

(** ** Points and the section-plane selector (cells 28 and 34) *)

Definition point3 : Type := F64.t * F64.t * F64.t.

Definition px (p : point3) : F64.t := fst (fst p).
Definition py (p : point3) : F64.t := snd (fst p).
Definition pz (p : point3) : F64.t := snd p.

(** [np.where(mask)] on a one-dimensional boolean array: the indices of its
    true entries, ascending. *)
Fixpoint np_where_from (i : nat) (l : list bool) : list nat :=
  match l with
  | [] => []
  | b :: l' => if b then i :: np_where_from (S i) l' else np_where_from (S i) l'
  end.

Definition np_where (l : list bool) : list nat := np_where_from 0 l.

(** [sections = np.round(tfp[:,2]/100)] *)
Definition sections (tfp : list point3) : list F64.t :=
  map (fun p => F64.rint (F64.div (pz p) (F64.of_Z 100))) tfp.

(** [loc = np.where(sections == section_no)] *)
Definition section_loc (tfp : list point3) (section_no : Z) : list nat :=
  np_where (map (fun s => F64.eqb s (F64.of_Z section_no)) (sections tfp)).

(** One point's test, as [sections == section_no] evaluates it. *)
Definition on_section (section_no : Z) (p : point3) : bool :=
  F64.eqb (F64.rint (F64.div (pz p) (F64.of_Z 100))) (F64.of_Z section_no).

Definition zero : F64.t := S754_zero false.

(** The z-coordinates [6185.3, 6201.8, 6250.0] of the scenario. *)
Definition scenario_tfp : list point3 :=
  [ (zero, zero, F64.of_decimal 61853 1);
    (zero, zero, F64.of_decimal 62018 1);
    (zero, zero, F64.of_decimal 62500 1) ].


(** ** Python exceptions *)

Inductive pykey : Type :=
| KInt (n : Z)
| KStr (s : string).

Inductive exn : Type :=
| NameError (name : string)
| KeyError (key : pykey)
| IndexError
| ValueError
| TypeError
| ZeroDivisionError
| FileNotFoundError (path : string)
| PermissionError (path : string).

Inductive result (A : Type) : Type :=
| Ok (a : A)
| Raise (e : exn).

Arguments Ok {A} a.
Arguments Raise {A} e.

#[global] Instance result_ret : MRet result := fun _ a => Ok a.

#[global] Instance result_bind : MBind result :=
  fun _ _ f r => match r with Ok a => f a | Raise e => Raise e end.

Definition is_ok {A} (r : result A) : bool :=
  match r with Ok _ => true | Raise _ => false end.

(** Run [f] over a list left to right, stopping at the first exception. *)
Fixpoint foldM {A S} (f : S -> A -> result S) (s : S) (l : list A) : result S :=
  match l with
  | [] => Ok s
  | a :: l' => s' ← f s a; foldM f s' l'
  end.

(** ** Two-dimensional arrays

    A numpy array of shape [(nrows, ncols)]; [get2 d a r c] reads entry
    [(r, c)] and gives [d] outside the array, which is how the morphology
    routines see their [border_value]. *)

Record array2 (A : Type) : Type := Array2 {
  nrows : nat;
  ncols : nat;
  cells : list (list A)
}.

Arguments Array2 {A} nrows ncols cells.
Arguments nrows {A} a.
Arguments ncols {A} a.
Arguments cells {A} a.

Definition in_bounds (H W : nat) (r c : Z) : bool :=
  (0 <=? r) && (r <? Z.of_nat H) && (0 <=? c) && (c <? Z.of_nat W).

Definition get2 {A} (d : A) (a : array2 A) (r c : Z) : A :=
  if in_bounds (nrows a) (ncols a) r c
  then nth (Z.to_nat c) (nth (Z.to_nat r) (cells a) []) d
  else d.

Definition tabulate {A} (H W : nat) (f : Z -> Z -> A) : array2 A :=
  Array2 H W
    (map (fun r => map (fun c => f (Z.of_nat r) (Z.of_nat c)) (seq 0 W)) (seq 0 H)).

(** [np.zeros((H, W))], its entries read as booleans. *)
Definition zeros (H W : nat) : array2 bool := tabulate H W (fun _ _ => false).

Definition array2_map {A B} (f : A -> B) (a : array2 A) : array2 B :=
  Array2 (nrows a) (ncols a) (map (map f) (cells a)).

Definition array2_eqb (a b : array2 bool) : bool :=
  (nrows a =? nrows b)%nat && (ncols a =? ncols b)%nat &&
  forallb (fun r => forallb (fun c =>
      Bool.eqb (get2 false a (Z.of_nat r) (Z.of_nat c))
               (get2 false b (Z.of_nat r) (Z.of_nat c)))
    (seq 0 (ncols a))) (seq 0 (nrows a)).

(** ** scipy.ndimage binary morphology

    All calls in the notebook use the default structuring element,
    [generate_binary_structure(2, 1)]: the centre and its four edge
    neighbours. *)

Definition structure : list (Z * Z) :=
  [(-1, 0); (0, -1); (0, 0); (0, 1); (1, 0)].

(** One pass of erosion: an entry stays when the whole structuring element,
    placed on it, lies on true entries; outside the array counts as
    [border]. *)
Definition erode (border : bool) (a : array2 bool) : array2 bool :=
  tabulate (nrows a) (ncols a) (fun r c =>
    forallb (fun d => get2 border a (r + fst d) (c + snd d)) structure).

(** One pass of dilation, where [mask] allows a change. *)
Definition dilate (border : bool) (mask : Z -> Z -> bool) (a : array2 bool)
  : array2 bool :=
  tabulate (nrows a) (ncols a) (fun r c =>
    if mask r c
    then existsb (fun d => get2 border a (r + fst d) (c + snd d)) structure
    else get2 false a r c).

(** [ndi.binary_erosion(a)]: one iteration, [border_value=0]. *)
Definition binary_erosion (a : array2 bool) : array2 bool := erode false a.

(** [ndi.binary_dilation(a)]: one iteration, no mask, [border_value=0]. *)
Definition binary_dilation (a : array2 bool) : array2 bool :=
  dilate false (fun _ _ => true) a.

(** [ndi.binary_closing(a)]: dilation, then erosion. *)
Definition binary_closing (a : array2 bool) : array2 bool :=
  binary_erosion (binary_dilation a).

(** [binary_dilation(..., iterations=-1, mask=mask, border_value=1)]: repeat
    until a pass changes nothing. *)
Fixpoint dilate_until_stable (fuel : nat) (mask : Z -> Z -> bool)
  (a : array2 bool) : array2 bool :=
  match fuel with
  | O => a
  | S fuel' =>
      let a' := dilate true mask a in
      if array2_eqb a' a then a else dilate_until_stable fuel' mask a'
  end.

(** [ndi.binary_fill_holes(a)]: flood the complement of [a] from outside the
    array; what the flood does not reach is [a] with its holes filled.  A
    pass that changes something adds an entry, so [nrows * ncols] passes and
    one more to see the last one change nothing are enough. *)
Definition binary_fill_holes (a : array2 bool) : array2 bool :=
  let H := nrows a in
  let W := ncols a in
  let outside :=
    dilate_until_stable (S (H * W)) (fun r c => negb (get2 false a r c))
      (zeros H W) in
  tabulate H W (fun r c => negb (get2 false outside r c)).

(** [a.astype(int)] on a boolean array. *)
Definition astype_int (a : array2 bool) : array2 Z := array2_map Z.b2z a.

(** How scipy reads an integer array as a binary one: non-zero is true. *)
Definition as_bool (a : array2 Z) : array2 bool :=
  array2_map (fun v => negb (v =? 0)) a.

(** ** The float arrays of the 2D mapping (cell 34)

    An n-dimensional float64 array: its shape and its entries in row-major
    order. *)

Record ndarray : Type := NDArray {
  shape : list nat;
  data : list F64.t
}.

Definition ndarray_map (f : F64.t -> F64.t) (a : ndarray) : ndarray :=
  NDArray (shape a) (map f (data a)).

(** [tfp[loc,:2]] with [loc] the one-element tuple [np.where] returns: the
    tuple is read as an index array of shape [(1, n)], so the result has
    shape [(1, n, 2)].  [tfp] built from an empty list of points is
    one-dimensional and cannot take two indices. *)
Definition index_rows_xy (tfp : list point3) (loc : list nat) : result ndarray :=
  match tfp with
  | [] => Raise IndexError
  | _ =>
      rows ← foldM (fun acc i =>
                match nth_error tfp i with
                | Some p => Ok (acc ++ [p])
                | None => Raise IndexError
                end) [] loc;
      Ok (NDArray [1%nat; length loc; 2%nat]
                  (flat_map (fun p => [px p; py p]) rows))
  end.

(** [a.squeeze()]: every axis of length one is dropped. *)
Definition squeeze (a : ndarray) : ndarray :=
  NDArray (List.filter (fun n => negb (n =? 1)%nat) (shape a)) (data a).

Fixpoint pairs (l : list F64.t) : list (F64.t * F64.t) :=
  match l with
  | x :: y :: l' => (x, y) :: pairs l'
  | _ => []
  end.

(** [a.reshape((-1,2))], read row by row: the entries two by two; a
    [ValueError] when their number is odd. *)
Definition reshape_rows2 (a : ndarray) : result (list (F64.t * F64.t)) :=
  if Nat.even (length (data a)) then Ok (pairs (data a)) else Raise ValueError.

(** [twoD = 1.0/details[0]['sub_images'][0]['resolution']] (cell 24);
    Python's float division raises on a zero divisor. *)
Definition twoD_of (resolution : F64.t) : result F64.t :=
  match resolution with
  | S754_zero _ => Raise ZeroDivisionError
  | _ => Ok (F64.div (F64.of_Z 1) resolution)
  end.

(** [size = 25*twoD/(2**4)] (cell 24). *)
Definition size_of (twoD : F64.t) : F64.t :=
  F64.div (F64.mul (F64.of_Z 25) twoD) (F64.of_Z (2 ^ 4)).

(** [mapped_points = tfp[loc,:2]*twoD/(2**4)], then [squeeze]. *)
Definition mapped_points (twoD : F64.t) (tfp : list point3) (loc : list nat)
  : result ndarray :=
  sel ← index_rows_xy tfp loc;
  Ok (squeeze
        (ndarray_map (fun v => F64.div v (F64.of_Z (2 ^ 4)))
           (ndarray_map (fun v => F64.mul v twoD) sel))).

(** The two rounded, reshaped arrays of the cell, and the integer corner
    pairs the rasterizing loop reads off them row by row. *)
Definition footprints (twoD size : F64.t) (tfp : list point3) (loc : list nat)
  : result (list ((Z * Z) * (Z * Z))) :=
  mp ← mapped_points twoD tfp loc;
  let next_points := ndarray_map (fun v => F64.add v size) mp in
  rounded_mapped_points ← reshape_rows2 (ndarray_map F64.rint mp);
  rounded_next_points ← reshape_rows2 (ndarray_map F64.rint next_points);
  Ok (map (fun pq : (F64.t * F64.t) * (F64.t * F64.t) =>
             ((F64.astype_int (fst (fst pq)), F64.astype_int (snd (fst pq))),
              (F64.astype_int (fst (snd pq)), F64.astype_int (snd (snd pq)))))
          (combine rounded_mapped_points rounded_next_points)).

(** Python's reading of a slice bound on an axis of length [n]. *)
Definition slice_bound (n : nat) (i : Z) : Z :=
  if i <? 0 then Z.max (i + Z.of_nat n) 0 else Z.min i (Z.of_nat n).

Definition in_slice (n : nat) (start stop k : Z) : bool :=
  (slice_bound n start <=? k) && (k <? slice_bound n stop).

(** [blank[p[1]:q[1], p[0]:q[0]] = 1] *)
Definition fill_rect (blank : array2 bool) (pq : (Z * Z) * (Z * Z)) : array2 bool :=
  let '((p0, p1), (q0, q1)) := pq in
  tabulate (nrows blank) (ncols blank) (fun r c =>
    (in_slice (nrows blank) p1 q1 r && in_slice (ncols blank) p0 q0 c)
    || get2 false blank r c).

(** The canvas after the rasterizing loop, and
    [area = ndi.binary_closing(ndi.binary_fill_holes(blank).astype(int)).astype(int)]. *)
Definition canvas (H W : nat) (fps : list ((Z * Z) * (Z * Z))) : array2 bool :=
  fold_left fill_rect fps (zeros H W).

Definition area_of (blank : array2 bool) : array2 Z :=
  astype_int (binary_closing (as_bool (astype_int (binary_fill_holes blank)))).

(** [np.where(a == 1)] as the membership test the painting uses. *)
Definition is_one (a : array2 Z) (r c : Z) : bool := get2 0 a r c =? 1.

(** [inner]: six erosions of [area]; [boundary = area - inner.astype(int)]. *)
Definition erosion_iterations : nat := 6.

Definition inner_of (area : array2 Z) : array2 bool :=
  Nat.iter erosion_iterations binary_erosion (as_bool area).

Definition boundary_of (area : array2 Z) : array2 Z :=
  let inner := astype_int (inner_of area) in
  tabulate (nrows area) (ncols area) (fun r c => get2 0 area r c - get2 0 inner r c).

(** ** Images *)

Definition rgb : Type := Z * Z * Z.

Definition black : rgb := (0, 0, 0).

(** The images are uint8 arrays: a stored value is kept modulo 256. *)
Definition to_uint8 (v : Z) : Z := v mod 256.

Definition rgb_uint8 (p : rgb) : rgb :=
  (to_uint8 (fst (fst p)), to_uint8 (snd (fst p)), to_uint8 (snd p)).

Definition channel (i : nat) (p : rgb) : Z :=
  match i with
  | 0%nat => fst (fst p)
  | 1%nat => snd (fst p)
  | _ => snd p
  end.

Definition set_channel (i : nat) (v : Z) (p : rgb) : rgb :=
  match i with
  | 0%nat => (v, snd (fst p), snd p)
  | 1%nat => (fst (fst p), v, snd p)
  | _ => (fst (fst p), snd (fst p), v)
  end.

(** [image[:,:,i][mask] = v] *)
Definition assign_channel (mask : Z -> Z -> bool) (i : nat) (v : Z)
  (image : array2 rgb) : array2 rgb :=
  tabulate (nrows image) (ncols image) (fun r c =>
    let p := get2 black image r c in
    if mask r c then set_channel i (to_uint8 v) p else p).

(** [for i in np.arange(3): area_image[:,:,i][area_mask] = color[i]] *)
Definition paint_area (area : array2 Z) (color : rgb) (area_image : array2 rgb)
  : array2 rgb :=
  fold_left (fun im i => assign_channel (is_one area) i (channel i color) im)
    (seq 0 3) area_image.

(** The three writes of 0 and the write of 255 into the blue channel. *)
Definition paint_boundary (boundary : array2 Z) (boundary_image : array2 rgb)
  : array2 rgb :=
  assign_channel (is_one boundary) 2 255
    (fold_left (fun im i => assign_channel (is_one boundary) i 0 im)
       (seq 0 3) boundary_image).

(** ** The notebook's global objects

    What the cells below read and the notebook obtains from AllenSDK,
    SimpleITK and the image download: they are inputs here. *)

Definition voxel : Type := Z * Z * Z.

Record globals : Type := Globals {
  (** [np.array(img)], the section image *)
  arr : array2 rgb;
  section_no : Z;
  twoD : F64.t;
  size : F64.t;
  (** the list the name [regions] is bound to when cells 30 and 34 run *)
  regions : list Z;
  (** [rsp.structure_tree.get_colormap()] *)
  colormap : gmap Z rgb;
  (** [np.where(rsp.make_structure_mask([s]))], transposed: the voxels of
     structure [s] *)
  structure_voxels : Z -> list voxel;
  (** [rsp.structure_tree.ancestor_ids([s])[0]] *)
  ancestor_ids : Z -> list Z;
  (** the annotation volume, slice by slice along its first axis *)
  anno : list (list Z);
  dfmfld_TransformPoint : point3 -> point3;
  aff_TransformPoint : point3 -> point3;
  (** [ID], the image series *)
  ID : Z;
  (** [Image.alpha_composite] of a background with alpha 255 and a
     foreground with alpha 80 *)
  alpha_composite : array2 rgb -> array2 rgb -> array2 rgb
}.

Definition root_id : Z := 997.

(** [np.array(np.where(mask)).T.astype(float)] *)
Definition points_of (vs : list voxel) : list point3 :=
  map (fun v : voxel =>
         (F64.of_Z (fst (fst v)), F64.of_Z (snd (fst v)), F64.of_Z (snd v))) vs.

(** One row of [points*25]. *)
Definition scale25 (p : point3) : point3 :=
  (F64.mul (px p) (F64.of_Z 25), F64.mul (py p) (F64.of_Z 25),
   F64.mul (pz p) (F64.of_Z 25)).

(** [dfp = ...map(dfmfld_transform.TransformPoint, points*25)...] and
    [tfp = ...map(aff_trans.TransformPoint, dfp)...] *)
Definition dfp_of (g : globals) (points : list point3) : list point3 :=
  map (dfmfld_TransformPoint g) (map scale25 points).

Definition tfp_of (g : globals) (points : list point3) : list point3 :=
  map (aff_TransformPoint g) (dfp_of g points).

(** [sections = np.round(tfp[:,2]/100)]; [loc = np.where(sections == section_no)].
    An empty [tfp] is a one-dimensional array, and [tfp[:,2]] raises. *)
Definition select_section (g : globals) (tfp : list point3) : result (list nat) :=
  match tfp with
  | [] => Raise IndexError
  | _ => Ok (section_loc tfp (section_no g))
  end.

(** ** Structure discovery (cells 27, 28 and 30) *)

Fixpoint insert_unique (x : Z) (l : list Z) : list Z :=
  match l with
  | [] => [x]
  | y :: l' =>
      if x <? y then x :: l
      else if x =? y then l
      else y :: insert_unique x l'
  end.

(** [np.unique]: the distinct values, ascending. *)
Definition np_unique (l : list Z) : list Z := fold_right insert_unique [] l.

(** [anno[anno_loc.astype(int),:,:]]: the selected slices, in one list. *)
Definition anno_slices (g : globals) (anno_loc : list Z) : result (list Z) :=
  foldM (fun acc x =>
           let n := Z.of_nat (length (anno g)) in
           let i := if x <? 0 then x + n else x in
           if (0 <=? i) && (i <? n)
           then Ok (acc ++ nth (Z.to_nat i) (anno g) [])
           else Raise IndexError) [] anno_loc.

Record section_state : Type := SectionState {
  st_tfp : list point3;
  st_loc : list nat;
  structures_in_section : list Z
}.

(** Cells 27 and 28.  The first coordinates of the selected root points are
    array indices that went through [astype(float)]; they are read back
    from the voxels. *)
Definition find_structures (g : globals) : result section_state :=
  let root_voxels := structure_voxels g root_id in
  let tfp := tfp_of g (points_of root_voxels) in
  loc ← select_section g tfp;
  let anno_loc :=
    np_unique (map (fun i => fst (fst (nth i root_voxels (0, 0, 0)))) loc) in
  labels ← anno_slices g anno_loc;
  Ok (SectionState tfp loc (tl (np_unique labels))).

(** Cell 30, the loop: [region not in structures_in_section], [np.hstack]. *)
Definition add_regions (regions structures : list Z) : list Z :=
  fold_left (fun acc region =>
               if existsb (Z.eqb region) acc then acc else acc ++ [region])
    regions structures.

Fixpoint insert_by (key : nat -> nat) (i : nat) (l : list nat) : list nat :=
  match l with
  | [] => [i]
  | j :: l' => if (key i <=? key j)%nat then i :: l else j :: insert_by key i l'
  end.

(** [np.argsort]: a permutation of the indices that puts the keys in
    ascending order.  Among equal keys numpy's default sort promises no
    order; this one keeps the original order, and the results below that
    depend on the order are stated for every sorting permutation. *)
Definition argsort (keys : list nat) : list nat :=
  fold_right (insert_by (fun i => nth i keys 0%nat)) [] (seq 0 (length keys)).

(** Cell 30, the last line. *)
Definition sorted_indx (g : globals) (structures : list Z) : list nat :=
  argsort (map (fun s => length (ancestor_ids g s)) structures).

(** [structures_in_section[sorted_indx]] *)
Definition take_indx (structures : list Z) (indx : list nat) : list Z :=
  map (fun i => nth i structures 0) indx.

(** ** Mapping the structures to the image section (cell 34) *)

(** What one pass of the loop drew: the structure, its [area] and, for a
    structure in [regions], its [boundary]. *)
Record drawn : Type := Drawn {
  d_struct : Z;
  d_area : array2 Z;
  d_boundary : option (array2 Z)
}.

(** The variables the loop reads and writes.  [tfp] and [loc] are globals
    that outlive a pass: the pass for the root structure assigns neither and
    reads what is there.  [log] is not in the notebook; it records the masks
    of each pass for the statements below. *)
Record loop_state : Type := LoopState {
  tfp : list point3;
  loc : list nat;
  area_image : array2 rgb;
  boundary_image : array2 rgb;
  log : list drawn
}.

(** [struct in regions] *)
Definition in_regions (g : globals) (struct : Z) : bool :=
  existsb (Z.eqb struct) (regions g).

(** The body of [if struct != 997:]. *)
Definition transform_structure (g : globals) (struct : Z)
  : result (list point3 * list nat) :=
  let points := points_of (structure_voxels g struct) in
  let tfp := tfp_of g points in
  loc ← select_section g tfp;
  Ok (tfp, loc).

(** [area] from the [tfp] and [loc] in force. *)
Definition rasterize (g : globals) (tfp : list point3) (loc : list nat)
  : result (array2 Z) :=
  fps ← footprints (twoD g) (size g) tfp loc;
  Ok (area_of (canvas (nrows (arr g)) (ncols (arr g)) fps)).

(** One pass of [for num,struct in enumerate(structures_in_section[sorted_indx])]. *)
Definition loop_body (g : globals) (st : loop_state) (struct : Z)
  : result loop_state :=
  cur ← (if negb (struct =? root_id)
         then transform_structure g struct
         else Ok (tfp st, loc st));
  area ← rasterize g (fst cur) (snd cur);
  color ← match colormap g !! struct with
           | Some c => Ok c
           | None => Raise (KeyError (KInt struct))
           end;
  let area_image' := paint_area area color (area_image st) in
  if in_regions g struct
  then
    let boundary := boundary_of area in
    Ok (LoopState (fst cur) (snd cur) area_image'
          (paint_boundary boundary (boundary_image st))
          (log st ++ [Drawn struct area (Some boundary)]))
  else
    Ok (LoopState (fst cur) (snd cur) area_image' (boundary_image st)
          (log st ++ [Drawn struct area None])).

(** Cell 33 and the loop of cell 34, from the [tfp] and [loc] cell 28 left. *)
Definition map_structures (g : globals) (tfp0 : list point3) (loc0 : list nat)
  (order : list Z) : result loop_state :=
  foldM (loop_body g) (LoopState tfp0 loc0 (arr g) (arr g) []) order.

(** ** Saving the images (end of cell 34)

    A file is the image it holds.  The disk outlives an exception, so the
    saving steps thread it beside their outcome. *)

Record disk : Type := Disk {
  files : gmap string (array2 rgb);
  (** paths the process may not create or overwrite *)
  read_only : string -> bool
}.

Definition io (A : Type) : Type := disk -> disk * result A.

#[global] Instance io_ret : MRet io := fun _ a d => (d, Ok a).

#[global] Instance io_bind : MBind io :=
  fun _ _ f m d =>
    match m d with
    | (d', Ok a) => f a d'
    | (d', Raise e) => (d', Raise e)
    end.

Definition lift {A} (r : result A) : io A := fun d => (d, r).

(** [img.save(path)] *)
Definition save (path : string) (img : array2 rgb) : io unit :=
  fun d =>
    if read_only d path then (d, Raise (PermissionError path))
    else (Disk (<[path := img]> (files d)) (read_only d), Ok tt).

(** [Image.open(path)] *)
Definition open (path : string) : io (array2 rgb) :=
  fun d =>
    match files d !! path with
    | Some img => (d, Ok img)
    | None => (d, Raise (FileNotFoundError path))
    end.

(** ['./{}/name'.format(ID)] *)
Definition in_series_dir (g : globals) (name : string) : string :=
  "./" +:+ pretty (ID g) +:+ "/" +:+ name.

Definition area_png (g : globals) : string := in_series_dir g "area.png".
Definition boundary_png (g : globals) : string := in_series_dir g "boundary.png".
Definition color_composite_png (g : globals) : string :=
  in_series_dir g "color_composite.png".
Definition section_jpg (g : globals) : string :=
  in_series_dir g (pretty (ID g) +:+ ".jpg").

(** [Image.alpha_composite(cbg, fg)] refuses images of different sizes. *)
Definition composite (g : globals) (cbg fg : array2 rgb) : result (array2 rgb) :=
  if (nrows cbg =? nrows fg)%nat && (ncols cbg =? ncols fg)%nat
  then Ok (alpha_composite g cbg fg)
  else Raise ValueError.

(** The lines after the loop. *)
Definition save_outputs (g : globals) (st : loop_state) : io unit :=
  _ ← save (area_png g) (area_image st);
  _ ← save (boundary_png g) (boundary_image st);
  cbg ← open (section_jpg g);
  fg ← open (area_png g);
  comp ← lift (composite g cbg fg);
  save (color_composite_png g) comp.

(** Cells 27 to 34 up to the end of the loop, with [regions] bound. *)
Definition draw_structures (g : globals) : result loop_state :=
  s ← find_structures g;
  let structures := add_regions (regions g) (structures_in_section s) in
  map_structures g (st_tfp s) (st_loc s)
    (take_indx structures (sorted_indx g structures)).

(** Cells 27 to 34. *)
Definition pipeline (g : globals) : io loop_state :=
  st ← lift (draw_structures g);
  _ ← save_outputs g st;
  mret st.

(** ** The notebook's global namespace (cells 1 to 30)

    Which names the top-level statements of each cell read and bind.  Only
    the lists of structure ids carry a value here; every other object is
    opaque.  A name read before any cell has bound it is a [NameError]. *)

Inductive pyobj : Type :=
| PyIds (ids : list Z)
| PyObject.

Definition load (name : string) (ns : gmap string pyobj) : result pyobj :=
  match ns !! name with
  | Some v => Ok v
  | None => Raise (NameError name)
  end.

Definition loads (names : list string) (ns : gmap string pyobj) : result unit :=
  foldM (fun _ name => _ ← load name ns; Ok tt) tt names.

Definition stores (names : list string) (ns : gmap string pyobj)
  : gmap string pyobj :=
  fold_left (fun m name => <[name := PyObject]> m) names ns.

(** A cell whose objects are opaque: the free names it reads, then the names
    it binds. *)
Definition cell (reads writes : list string) (ns : gmap string pyobj)
  : result (gmap string pyobj) :=
  _ ← loads reads ns; Ok (stores writes ns).

(** Cell 14.  [regions] is a local of the function: the call returns the
    list and binds nothing in the global namespace. *)
Definition get_structure_ids (acrnm_map : gmap string Z) (acrnms : list string)
  : result (list Z) :=
  foldM (fun regions acrnm =>
           match acrnm_map !! acrnm with
           | Some id => Ok (regions ++ [id])
           | None => Raise (KeyError (KStr acrnm))
           end) [] acrnms.

Definition requested_acronyms : list string :=
  ["GENd"; "GENv"; "LP"; "POL"; "APN"].

(** Cell 17: [regions_of_interest = get_structure_ids([...])] *)
Definition cell_17 (acrnm_map : gmap string Z) (ns : gmap string pyobj)
  : result (gmap string pyobj) :=
  _ ← loads ["get_structure_ids"; "acrnm_map"] ns;
  ids ← get_structure_ids acrnm_map requested_acronyms;
  Ok (<["regions_of_interest" := PyIds ids]> ns).

(** Cell 28. *)
Definition cell_28 (g : globals) (ns : gmap string pyobj)
  : result (gmap string pyobj) :=
  _ ← loads ["np"; "dfmfld_transform"; "root_points"; "aff_trans";
              "section_no"; "anno"] ns;
  s ← find_structures g;
  Ok (<["structures_in_section" := PyIds (structures_in_section s)]>
        (stores ["dfp"; "tfp"; "sections"; "loc"; "anno_loc"] ns)).

(** Cell 30: [for region in regions:] reads the global [regions] first. *)
Definition cell_30 (g : globals) (ns : gmap string pyobj)
  : result (gmap string pyobj) :=
  r ← load "regions" ns;
  match r with
  | PyObject => Raise TypeError
  | PyIds regions =>
      s ← load "structures_in_section" ns;
      _ ← loads ["np"; "rsp"] ns;
      match s with
      | PyObject => Raise TypeError
      | PyIds structures =>
          let structures' := add_regions regions structures in
          Ok (<["structures_in_section" := PyIds structures']>
                (stores ["region"; "sorted_indx"] ns))
      end
  end.

(** The cells in the order the notebook lists them, up to cell 30. *)
Definition cells_before_30 (g : globals) (acrnm_map : gmap string Z)
  : list (gmap string pyobj -> result (gmap string pyobj)) :=
  [ cell [] ["np"; "pd"; "MouseConnectivityCache"; "MouseConnectivityApi";
             "ImageDownloadApi"; "sitk"; "plt"; "Image"; "json"; "nrrd"; "ndi"];
    cell [] ["ID"; "section_no"];
    cell ["MouseConnectivityCache"] ["mcc"];
    cell ["mcc"] ["anno"; "meta"];
    cell ["mcc"] ["rsp"];
    cell ["rsp"] ["name_map"];
    cell ["rsp"] ["acrnm_map"];
    cell ["rsp"] ["colormap"];
    cell [] ["get_structure_ids"];
    cell_17 acrnm_map;
    cell ["regions_of_interest"] [];
    cell ["mcc"; "ID"; "sitk"] ["dfmfld"; "temp"; "dfmfld_transform"; "aff_trans"];
    cell ["MouseConnectivityApi"; "ImageDownloadApi"; "ID"; "pd"; "section_no";
          "Image"; "np"]
         ["mca"; "ida"; "details"; "equal"; "r"; "twoD"; "size";
          "sections_frame"; "section_id"; "img"; "arr"];
    cell ["rsp"; "np"] ["root_mask"; "root_points"];
    cell_28 g ].

Definition run_cells (cs : list (gmap string pyobj -> result (gmap string pyobj)))
  (ns : gmap string pyobj) : result (gmap string pyobj) :=
  foldM (fun ns c => c ns) ns cs.

(** Restart and run all, as far as cell 30. *)
Definition run_to_cell_30 (g : globals) (acrnm_map : gmap string Z)
  : result (gmap string pyobj) :=
  ns ← run_cells (cells_before_30 g acrnm_map) ∅;
  cell_30 g ns.

(** ** A small specimen

    An 8 by 8 section image, section 62, one pixel per micron, identity
    transforms and a five-node structure tree
    [997 > 8 > 549 > 1008] and [997 > 218]; structure 215 has no voxel. *)

Definition demo_voxels (s : Z) : list voxel :=
  if s =? 997 then [(1, 2, 248); (2, 2, 248); (2, 2, 252)]
  else if s =? 8 then [(2, 2, 248); (2, 2, 252)]
  else if s =? 549 then [(2, 2, 248)]
  else if s =? 1008 then [(2, 2, 248)]
  else if s =? 218 then [(3, 3, 252)]
  else [].

Definition demo_ancestor_ids (s : Z) : list Z :=
  if s =? 997 then [997]
  else if s =? 8 then [8; 997]
  else if s =? 549 then [549; 8; 997]
  else if s =? 1008 then [1008; 549; 8; 997]
  else [s; 997].

Definition demo_colormap : gmap Z rgb :=
  list_to_map
    [ (997, (255, 255, 255)); (8, (191, 218, 227)); (549, (255, 112, 128));
      (1008, (255, 128, 132)); (218, (255, 144, 159)); (215, (255, 144, 255)) ].

Definition demo_arr : array2 rgb := tabulate 8 8 (fun r c => (r, c, 7)).

Definition demo_with (regions : list Z) (dfm aff : point3 -> point3) : globals :=
  {| arr := demo_arr;
     section_no := 62;
     twoD := F64.of_Z 1;
     size := size_of (F64.of_Z 1);
     regions := regions;
     colormap := demo_colormap;
     structure_voxels := demo_voxels;
     ancestor_ids := demo_ancestor_ids;
     anno := [[0]; [0; 8]; [0; 549; 1008]; [0; 218]];
     dfmfld_TransformPoint := dfm;
     aff_TransformPoint := aff;
     ID := 100141219;
     alpha_composite := fun cbg fg =>
       tabulate (nrows cbg) (ncols cbg) (fun r c =>
         let b := get2 black cbg r c in
         let f := get2 black fg r c in
         ((175 * fst (fst b) + 80 * fst (fst f)) / 255,
          (175 * snd (fst b) + 80 * snd (fst f)) / 255,
          (175 * snd b + 80 * snd f) / 255)) |}.

Definition demo : globals := demo_with [1008; 218] (fun p => p) (fun p => p).

Definition demo_acrnm_map : gmap string Z :=
  list_to_map
    [ ("GENd", 1008); ("GENv", 1014); ("LP", 218); ("POL", 1029); ("APN", 215) ].

(** A disk that holds the downloaded section image. *)
Definition demo_disk (read_only : string -> bool) : disk :=
  Disk {[ section_jpg demo := demo_arr ]} read_only.

(** The loop's variables as cell 33 leaves them, for the small specimen;
    after a pass for structure 1008; and when the loop has ended. *)
Definition demo_start : loop_state :=
  match find_structures demo with
  | Ok s => LoopState (st_tfp s) (st_loc s) (arr demo) (arr demo) []
  | Raise _ => LoopState [] [] (arr demo) (arr demo) []
  end.

Definition demo_after_1008 : loop_state :=
  match loop_body demo demo_start 1008 with
  | Ok st => st
  | Raise _ => demo_start
  end.

Definition demo_order : list Z := [8; 218; 549; 1008].

Definition demo_final : loop_state :=
  match draw_structures demo with
  | Ok st => st
  | Raise _ => demo_start
  end.

(** The global namespace of the small specimen's run when cell 30 starts. *)
Definition demo_namespace : gmap string pyobj :=
  match run_cells (cells_before_30 demo demo_acrnm_map) ∅ with
  | Ok ns => ns
  | Raise _ => ∅
  end.

(** The files a run means to leave, in the order it saves them; [comp] is
    the composite. *)
Definition outputs (g : globals) (st : loop_state) (comp : array2 rgb)
  : list (string * array2 rgb) :=
  [ (area_png g, area_image st);
    (boundary_png g, boundary_image st);
    (color_composite_png g, comp) ].

Definition write_all (fs : gmap string (array2 rgb))
  (l : list (string * array2 rgb)) : gmap string (array2 rgb) :=
  fold_left (fun fs pi => <[fst pi := snd pi]> fs) l fs.


(** ** Vocabulary of the statements *)

(** An array as numpy holds it: [nrows] rows of [ncols] entries. *)
Definition well_formed {A} (a : array2 A) : Prop :=
  length (cells a) = nrows a /\
  Forall (fun row => length row = ncols a) (cells a).

(** The rows above row [k] are flooded. *)
Definition rows_flooded (k : Z) (a : array2 bool) : Prop :=
  forall r c, in_bounds (nrows a) (ncols a) r c = true -> r < k ->
              get2 false a r c = true.

(** The colour of a drawn boundary. *)
Definition highlight : rgb := (0, 0, 255).

(** The entry a pass appends to the log. *)
Definition entry_of (g : globals) (struct : Z) (area : array2 Z) : drawn :=
  Drawn struct area
    (if in_regions g struct then Some (boundary_of area) else None).

(** What an entry of the log does to pixel [(r, c)] of the area image and of
    the boundary image. *)
Definition area_step (g : globals) (r c : Z) (p : rgb) (e : drawn) : rgb :=
  if is_one (d_area e) r c
  then match colormap g !! d_struct e with
       | Some color => rgb_uint8 color
       | None => p
       end
  else p.

Definition boundary_step (r c : Z) (p : rgb) (e : drawn) : rgb :=
  match d_boundary e with
  | Some b => if is_one b r c then highlight else p
  | None => p
  end.

(** An entry as a pass writes it. *)
Definition entry_ok (g : globals) (e : drawn) : Prop :=
  e = entry_of g (d_struct e) (d_area e) /\
  is_Some (colormap g !! d_struct e).

(** The code's scaling of one coordinate: [v*twoD/(2**4)]. *)
Definition to_pixels (twoD : F64.t) (v : F64.t) : F64.t :=
  F64.div (F64.mul v twoD) (F64.of_Z (2 ^ 4)).

(** The scale factor as C2 words it: a ratio of the image pixel size and
    the volume resolution, adjusted for the downsample level by division
    ([shrink = true]) or by multiplication. *)
Definition claimed_scale (numerator denominator : F64.t)
  (downsample : Z) (shrink : bool) : F64.t :=
  let ratio := F64.div numerator denominator in
  if shrink then F64.div ratio (F64.of_Z (2 ^ downsample))
  else F64.mul ratio (F64.of_Z (2 ^ downsample)).

(** A point at (1600, 800) microns on section 62. *)
Definition c2_tfp : list point3 :=
  [(F64.of_Z 1600, F64.of_Z 800, F64.of_Z 6200)].

(** Two transforms that do not commute: a shift of x by one, and a doubling
    of x. *)
Definition shift_x (p : point3) : point3 := (F64.add (px p) (F64.of_Z 1), py p, pz p).
Definition double_x (p : point3) : point3 := (F64.mul (px p) (F64.of_Z 2), py p, pz p).

(** Ancestor chains in ascending length along the order. *)
Definition depth_sorted (g : globals) (order : list Z) : Prop :=
  StronglySorted
    (fun x y => (length (ancestor_ids g x) <= length (ancestor_ids g y))%nat) order.

(** The chains of a structure tree: a proper ancestor has a shorter chain
    than its descendant. *)
Definition chains_grow (g : globals) : Prop :=
  forall x y, In x (ancestor_ids g y) -> x <> y ->
              (length (ancestor_ids g x) < length (ancestor_ids g y))%nat.

(** A cell that leaves an unbound name unbound. *)
Definition keeps_unbound (name : string)
  (c : gmap string pyobj -> result (gmap string pyobj)) : Prop :=
  forall ns ns', c ns = Ok ns' -> ns !! name = None -> ns' !! name = None.

(** The positions of an array, row by row, and how many of them hold
    [false]. *)
Definition grid (H W : nat) : list (Z * Z) :=
  flat_map (fun r => map (fun c => (Z.of_nat r, Z.of_nat c)) (seq 0 W)) (seq 0 H).

Definition count_false (a : array2 bool) : nat :=
  length (List.filter (fun p => negb (get2 false a (fst p) (snd p)))
            (grid (nrows a) (ncols a))).

(** ** Proof automation *)

(** Case analysis on which structure of the small specimen [s] is, in a
    hypothesis [Hin] on a list computed from [s], then on the element of
    that list. *)
Ltac demo_structure_cases Hin :=
  repeat match type of Hin with
         | context [?v =? ?k] => destruct (Z.eqb_spec v k); [subst v|]
         end;
  simpl in Hin;
  repeat match type of Hin with
         | _ \/ _ => destruct Hin as [<-|Hin]
         | False => destruct Hin
         end.

(** ** Further vocabulary and specimens *)

(** [anno[k,:,:]] as cell 28 reads it: a negative index counts from the
    end. *)
Definition anno_slice (g : globals) (k : Z) : list Z :=
  nth (Z.to_nat (if k <? 0 then k + Z.of_nat (length (anno g)) else k)) (anno g) [].

(** A specimen with another section number, and one with other voxels. *)
Definition with_section (g : globals) (n : Z) : globals :=
  {| arr := arr g; section_no := n; twoD := twoD g; size := size g;
     regions := regions g; colormap := colormap g;
     structure_voxels := structure_voxels g; ancestor_ids := ancestor_ids g;
     anno := anno g; dfmfld_TransformPoint := dfmfld_TransformPoint g;
     aff_TransformPoint := aff_TransformPoint g; ID := ID g;
     alpha_composite := alpha_composite g |}.

Definition with_voxels (g : globals) (voxels : Z -> list voxel) : globals :=
  {| arr := arr g; section_no := section_no g; twoD := twoD g; size := size g;
     regions := regions g; colormap := colormap g;
     structure_voxels := voxels; ancestor_ids := ancestor_ids g;
     anno := anno g; dfmfld_TransformPoint := dfmfld_TransformPoint g;
     aff_TransformPoint := aff_TransformPoint g; ID := ID g;
     alpha_composite := alpha_composite g |}.

(** Whether the union loop of cell 30 appends region number [i]: it does
    when the region is not among the structures found and has not come
    earlier in [regions]. *)
Definition appended (structures regions : list Z) (i : nat) : bool :=
  negb (existsb (Z.eqb (nth i regions 0)) structures) &&
  negb (existsb (Z.eqb (nth i regions 0)) (firstn i regions)).

(** The section state of the small specimen after cell 28. *)
Definition demo_section_state : section_state :=
  match find_structures demo with
  | Ok s => s
  | Raise _ => SectionState [] [] []
  end.

(** Whether the square of one footprint, as [blank[p[1]:q[1], p[0]:q[0]]]
    reads its corners, holds entry [(r, c)] of an [H] by [W] canvas. *)
Definition in_footprint (H W : nat) (r c : Z) (pq : (Z * Z) * (Z * Z)) : bool :=
  in_slice H (snd (fst pq)) (snd (snd pq)) r &&
  in_slice W (fst (fst pq)) (fst (snd pq)) c.

(** The entries of an [H] by [W] array that are not in its first or last
    row or column. *)
Definition interior (H W : nat) (r c : Z) : bool :=
  (1 <=? r) && (r <? Z.of_nat H - 1) && (1 <=? c) && (c <? Z.of_nat W - 1).

(** A canvas with one footprint, rows and columns 3 and 4. *)
Definition demo_canvas : array2 bool := canvas 8 8 [((3, 3), (5, 5))].

(** What holds of the loop's [tfp] and [loc] between passes: [tfp] is a
    two-dimensional array and [loc] indexes its rows. *)
Definition points_in_force (st : loop_state) : Prop :=
  tfp st <> [] /\ Forall (fun i => (i < length (tfp st))%nat) (loc st).

(** A structure whose pass can go through: the root, or one with a voxel;
    and with a colour. *)
Definition drawable (g : globals) (s : Z) : Prop :=
  (s = root_id \/ structure_voxels g s <> []) /\ is_Some (colormap g !! s).

(** The small specimen's loop run on the root and structure 8. *)
Definition demo_root_final : loop_state :=
  match map_structures demo (tfp demo_start) (loc demo_start) [997; 8] with
  | Ok st => st
  | Raise _ => demo_start
  end.

(** The namespace of the small specimen's run at cell 30, had a cell bound
    [regions] to the requested ids. *)
Definition demo_namespace_with_regions : gmap string pyobj :=
  <["regions" := PyIds [1008; 1014; 218; 1029; 215]]> demo_namespace.

(** A disk without the section jpg. *)
Definition empty_disk : disk := Disk ∅ (fun _ => false).

(** * Properties *)

(** ** The result monad and arrays *)

Lemma bind_Ok {A B} (r : result A) (f : A -> result B) (b : B) :
  r ≫= f = Ok b -> exists a, r = Ok a /\ f a = Ok b.
Proof.
  destruct r as [a|e]; simpl; intros E; [eauto | discriminate].
Qed.

Lemma foldM_app {A S} (f : S -> A -> result S) (s : S) (l1 l2 : list A) :
  foldM f s (l1 ++ l2) = foldM f s l1 ≫= fun s' => foldM f s' l2.
Proof.
  revert s; induction l1 as [|a l1 IH]; intros s; simpl; [reflexivity|].
  destruct (f s a) as [s'|e]; simpl; [apply IH | reflexivity].
Qed.

Lemma in_bounds_spec (H W : nat) (r c : Z) :
  in_bounds H W r c = true <->
  0 <= r < Z.of_nat H /\ 0 <= c < Z.of_nat W.
Proof.
  unfold in_bounds. rewrite !andb_true_iff, !Z.leb_le, !Z.ltb_lt. lia.
Qed.

Lemma get2_tabulate {A} (d : A) (H W : nat) (f : Z -> Z -> A) (r c : Z) :
  get2 d (tabulate H W f) r c = if in_bounds H W r c then f r c else d.
Proof.
  unfold get2; simpl.
  destruct (in_bounds H W r c) eqn:E; [|reflexivity].
  apply in_bounds_spec in E as [Hr Hc].
  rewrite (nth_indep _ [] (map (fun c => f (Z.of_nat 0) (Z.of_nat c)) (seq 0 W)))
    by (rewrite length_map, length_seq; lia).
  rewrite (map_nth (fun r => map (fun c => f (Z.of_nat r) (Z.of_nat c)) (seq 0 W))).
  rewrite seq_nth by lia.
  rewrite (nth_indep _ d (f (Z.of_nat (0 + Z.to_nat r)) (Z.of_nat 0)))
    by (rewrite length_map, length_seq; lia).
  rewrite (map_nth (fun c => f (Z.of_nat (0 + Z.to_nat r)) (Z.of_nat c))).
  rewrite seq_nth by lia.
  f_equal; lia.
Qed.

Lemma get2_out {A} (d : A) (a : array2 A) (r c : Z) :
  in_bounds (nrows a) (ncols a) r c = false -> get2 d a r c = d.
Proof. unfold get2; intros ->; reflexivity. Qed.

Lemma get2_array2_map {A B} (f : A -> B) (d : A) (a : array2 A) (r c : Z) :
  get2 (f d) (array2_map f a) r c = f (get2 d a r c).
Proof.
  unfold get2, array2_map; simpl.
  destruct (in_bounds (nrows a) (ncols a) r c); [|reflexivity].
  change (@nil B) with (map f []).
  rewrite (map_nth (map f)). apply map_nth.
Qed.

Lemma get2_astype_int (a : array2 bool) (r c : Z) :
  get2 0 (astype_int a) r c = Z.b2z (get2 false a r c).
Proof. exact (get2_array2_map Z.b2z false a r c). Qed.

Lemma get2_as_bool (a : array2 Z) (r c : Z) :
  get2 false (as_bool a) r c = negb (get2 0 a r c =? 0).
Proof. exact (get2_array2_map (fun v => negb (v =? 0)) 0 a r c). Qed.

(** ** Morphology *)

Lemma get2_erode (b : bool) (a : array2 bool) (r c : Z) :
  get2 false (erode b a) r c =
  in_bounds (nrows a) (ncols a) r c &&
  (get2 b a (r - 1) c && get2 b a r (c - 1) && get2 b a r c &&
   get2 b a r (c + 1) && get2 b a (r + 1) c).
Proof.
  unfold erode. rewrite get2_tabulate.
  destruct (in_bounds (nrows a) (ncols a) r c); [|reflexivity].
  simpl. rewrite !Z.add_0_r, andb_true_r.
  replace (r + -1) with (r - 1) by lia. replace (c + -1) with (c - 1) by lia.
  rewrite !andb_assoc. reflexivity.
Qed.

Lemma get2_dilate (b : bool) (mask : Z -> Z -> bool) (a : array2 bool) (r c : Z) :
  get2 false (dilate b mask a) r c =
  in_bounds (nrows a) (ncols a) r c &&
  (if mask r c
   then get2 b a (r - 1) c || get2 b a r (c - 1) || get2 b a r c ||
        get2 b a r (c + 1) || get2 b a (r + 1) c
   else get2 false a r c).
Proof.
  unfold dilate. rewrite get2_tabulate.
  destruct (in_bounds (nrows a) (ncols a) r c); [|reflexivity].
  destruct (mask r c); [|reflexivity].
  simpl. rewrite !Z.add_0_r, orb_false_r.
  replace (r + -1) with (r - 1) by lia. replace (c + -1) with (c - 1) by lia.
  rewrite !orb_assoc. reflexivity.
Qed.

Lemma get2_false_in_bounds (a : array2 bool) (r c : Z) :
  get2 false a r c = true -> in_bounds (nrows a) (ncols a) r c = true.
Proof.
  unfold get2. destruct (in_bounds (nrows a) (ncols a) r c); [reflexivity|discriminate].
Qed.

Lemma nrows_iter_erosion (n : nat) (a : array2 bool) :
  nrows (Nat.iter n binary_erosion a) = nrows a /\
  ncols (Nat.iter n binary_erosion a) = ncols a.
Proof. induction n; simpl; [split; reflexivity | exact IHn]. Qed.

(** Erosion never adds an entry. *)
Lemma binary_erosion_decreasing (a : array2 bool) (r c : Z) :
  get2 false (binary_erosion a) r c = true -> get2 false a r c = true.
Proof.
  unfold binary_erosion. rewrite get2_erode, !andb_true_iff. tauto.
Qed.

(** [n] erosions by the cross keep exactly the entries whose city-block
    ball of radius [n] lies on true entries of the array. *)
Lemma iter_erosion_ball (n : nat) (a : array2 bool) (r c : Z) :
  get2 false (Nat.iter n binary_erosion a) r c = true <->
  forall r' c', Z.abs (r' - r) + Z.abs (c' - c) <= Z.of_nat n ->
                get2 false a r' c' = true.
Proof.
  revert r c; induction n as [|n IH]; intros r c.
  - simpl. split.
    + intros E r' c' Hd. replace r' with r by lia. replace c' with c by lia. exact E.
    + intros Hall. apply Hall. lia.
  - rewrite Nat.iter_succ. unfold binary_erosion at 1. rewrite get2_erode.
    destruct (nrows_iter_erosion n a) as [-> ->].
    rewrite !andb_true_iff, !IH. split.
    + intros (_ & (((Hu & Hl) & Hc) & Hr) & Hd) r' c' Hdist.
      destruct (Z_le_gt_dec (Z.abs (r' - r) + Z.abs (c' - c)) (Z.of_nat n)) as [Hs|Hs].
      { apply Hc; lia. }
      destruct (Z_lt_ge_dec r' r); [apply Hu; lia|].
      destruct (Z_lt_ge_dec r r'); [apply Hd; lia|].
      destruct (Z_lt_ge_dec c' c); [apply Hl; lia|].
      apply Hr; lia.
    + intros Hall. split.
      { apply get2_false_in_bounds, Hall. lia. }
      repeat split; intros r' c' Hdist; apply Hall; lia.
Qed.

Lemma array2_eqb_spec (a b : array2 bool) :
  array2_eqb a b = true ->
  nrows a = nrows b /\ ncols a = ncols b /\
  forall r c, get2 false a r c = get2 false b r c.
Proof.
  unfold array2_eqb. rewrite !andb_true_iff, !Nat.eqb_eq.
  intros [[Hr Hc] Hall]. repeat split; [assumption..|].
  intros r c. destruct (in_bounds (nrows a) (ncols a) r c) eqn:E.
  - apply in_bounds_spec in E as [Hr' Hc'].
    rewrite forallb_forall in Hall.
    assert (Hrow := Hall (Z.to_nat r) ltac:(apply in_seq; lia)).
    rewrite forallb_forall in Hrow.
    assert (Hcell := Hrow (Z.to_nat c) ltac:(apply in_seq; lia)).
    rewrite !Z2Nat.id in Hcell by lia.
    apply eqb_prop, Hcell.
  - rewrite !get2_out; [reflexivity | congruence | assumption].
Qed.

(** *** The empty canvas *)

Lemma get2_zeros (H W : nat) (r c : Z) : get2 false (zeros H W) r c = false.
Proof. unfold zeros. rewrite get2_tabulate. destruct (in_bounds H W r c); reflexivity. Qed.

Lemma well_formed_tabulate {A} (H W : nat) (f : Z -> Z -> A) :
  well_formed (tabulate H W f).
Proof.
  split; simpl.
  - rewrite length_map, length_seq. reflexivity.
  - apply List.Forall_forall. intros row Hin. apply in_map_iff in Hin as (r & <- & _).
    rewrite length_map, length_seq. reflexivity.
Qed.

Lemma get2_default {A} (d d' : A) (a : array2 A) (r c : Z) :
  well_formed a -> in_bounds (nrows a) (ncols a) r c = true ->
  get2 d a r c = get2 d' a r c.
Proof.
  intros [Hlen Hrows] Hb. unfold get2. rewrite Hb.
  apply in_bounds_spec in Hb as [Hr Hc].
  apply nth_indep.
  rewrite List.Forall_forall in Hrows.
  rewrite (Hrows (nth (Z.to_nat r) (cells a) [])); [lia|].
  apply nth_In. lia.
Qed.

Section Flood.

Variable mask : Z -> Z -> bool.
Hypothesis mask_full : forall r c, mask r c = true.

Lemma flood_step (k : Z) (a : array2 bool) :
  well_formed a ->
  rows_flooded k a -> rows_flooded (k + 1) (dilate true mask a).
Proof.
  intros Hwf Hk r c Hb Hr. simpl in Hb.
  rewrite get2_dilate, Hb, mask_full. simpl.
  destruct (in_bounds (nrows a) (ncols a) (r - 1) c) eqn:E.
  - rewrite (get2_default true false a (r - 1) c Hwf E).
    rewrite (Hk (r - 1) c E) by lia. reflexivity.
  - unfold get2 at 1. rewrite E. reflexivity.
Qed.

Lemma flood_fixpoint (a : array2 bool) :
  well_formed a ->
  (forall r c, get2 false (dilate true mask a) r c = get2 false a r c) ->
  forall k : nat, rows_flooded (Z.of_nat k) a.
Proof.
  intros Hwf Hfix k. induction k as [|n IH].
  - intros r c Hb Hr. apply in_bounds_spec in Hb. lia.
  - intros r c Hb Hr. rewrite <- Hfix.
    apply (flood_step (Z.of_nat n) a Hwf IH r c); [exact Hb | lia].
Qed.

Lemma flood_until_stable (fuel : nat) (a : array2 bool) (k : nat) :
  well_formed a ->
  rows_flooded (Z.of_nat k) a ->
  let a' := dilate_until_stable fuel mask a in
  nrows a' = nrows a /\ ncols a' = ncols a /\
  (forall r c, in_bounds (nrows a) (ncols a) r c = true ->
               r < Z.of_nat (k + fuel) -> get2 false a' r c = true).
Proof.
  revert a k; induction fuel as [|fuel IH]; intros a k Hwf Hk; simpl.
  - repeat split. intros r c Hb Hr. apply Hk; [exact Hb | lia].
  - destruct (array2_eqb (dilate true mask a) a) eqn:E.
    + repeat split. intros r c Hb _.
      apply array2_eqb_spec in E as (_ & _ & E).
      apply (flood_fixpoint a Hwf E (S (Z.to_nat r))); [exact Hb | lia].
    + destruct (IH (dilate true mask a) (S k) (well_formed_tabulate _ _ _))
        as (Hr & Hc & Hf).
      { replace (Z.of_nat (S k)) with (Z.of_nat k + 1) by lia.
        apply flood_step; assumption. }
      repeat split; [exact Hr | exact Hc |].
      intros r c Hb Hlt. apply Hf; [exact Hb | lia].
Qed.

End Flood.

(** An empty canvas has no hole to fill. *)
Lemma binary_fill_holes_zeros (H W : nat) (r c : Z) :
  get2 false (binary_fill_holes (zeros H W)) r c = false.
Proof.
  unfold binary_fill_holes. rewrite get2_tabulate.
  change (nrows (zeros H W)) with H. change (ncols (zeros H W)) with W.
  destruct (in_bounds H W r c) eqn:E; [|reflexivity].
  destruct (flood_until_stable
              (fun r c => negb (get2 false (zeros H W) r c))
              (fun r c => f_equal negb (get2_zeros H W r c))
              (S (H * W)) (zeros H W) 0 (well_formed_tabulate _ _ _))
    as (_ & _ & Hf).
  { intros r' c' Hb Hr. apply in_bounds_spec in Hb. lia. }
  rewrite Hf; [reflexivity | exact E |].
  apply in_bounds_spec in E. nia.
Qed.

Lemma binary_closing_empty (a : array2 bool) :
  (forall r c, get2 false a r c = false) ->
  forall r c, get2 false (binary_closing a) r c = false.
Proof.
  intros Ha r c. unfold binary_closing, binary_erosion.
  rewrite get2_erode.
  replace (get2 false (binary_dilation a) r c) with false.
  - destruct (in_bounds _ _ r c); [|reflexivity].
    rewrite !andb_false_r. reflexivity.
  - unfold binary_dilation. rewrite get2_dilate, !Ha, andb_false_r. reflexivity.
Qed.

(** With nothing on the canvas, [area] has no entry equal to one. *)
Lemma area_of_zeros (H W : nat) (r c : Z) :
  is_one (area_of (zeros H W)) r c = false.
Proof.
  unfold is_one, area_of. rewrite get2_astype_int.
  rewrite binary_closing_empty; [reflexivity|].
  intros r' c'. rewrite get2_as_bool, get2_astype_int, binary_fill_holes_zeros.
  reflexivity.
Qed.

(** *** The flood of [binary_fill_holes] comes to rest within its fuel *)

Lemma in_grid (H W : nat) (r c : Z) :
  In (r, c) (grid H W) <-> in_bounds H W r c = true.
Proof.
  unfold grid. rewrite in_flat_map, in_bounds_spec. split.
  - intros (r' & Hr & Hin). apply in_map_iff in Hin as (c' & E & Hc).
    injection E as <- <-. apply in_seq in Hr, Hc. lia.
  - intros [Hr Hc]. exists (Z.to_nat r). split; [apply in_seq; lia|].
    apply in_map_iff. exists (Z.to_nat c). split; [f_equal; lia | apply in_seq; lia].
Qed.

Lemma filter_length_le {A} (f g : A -> bool) (l : list A) :
  (forall x, In x l -> f x = true -> g x = true) ->
  (length (List.filter f l) <= length (List.filter g l))%nat.
Proof.
  induction l as [|x l IH]; intros Himp; simpl; [lia|].
  assert (IH' := IH (fun y Hy => Himp y (or_intror Hy))).
  destruct (f x) eqn:Ef.
  - rewrite (Himp x (or_introl eq_refl) Ef). simpl. lia.
  - destruct (g x); simpl; lia.
Qed.

Lemma filter_length_lt {A} (f g : A -> bool) (l : list A) (x : A) :
  (forall y, In y l -> f y = true -> g y = true) ->
  In x l -> f x = false -> g x = true ->
  (length (List.filter f l) < length (List.filter g l))%nat.
Proof.
  induction l as [|y l IH]; intros Himp Hin Hf Hg; simpl; [destruct Hin|].
  assert (Himp' : forall z, In z l -> f z = true -> g z = true)
    by (intros z Hz; apply Himp; right; exact Hz).
  destruct Hin as [->|Hin].
  - rewrite Hf, Hg. simpl. pose proof (filter_length_le f g l Himp'). lia.
  - specialize (IH Himp' Hin Hf Hg).
    destruct (f y) eqn:Ef.
    + rewrite (Himp y (or_introl eq_refl) Ef). simpl. lia.
    + destruct (g y); simpl; lia.
Qed.

Lemma forallb_false {A} (f : A -> bool) (l : list A) :
  forallb f l = false -> exists x, In x l /\ f x = false.
Proof.
  induction l as [|x l IH]; simpl; [discriminate|].
  destruct (f x) eqn:E; simpl.
  - intros Hl. destruct (IH Hl) as (y & Hy & Ey). exists y. split; [right|]; assumption.
  - intros _. exists x. split; [left; reflexivity | exact E].
Qed.

Lemma array2_eqb_false (a b : array2 bool) :
  nrows a = nrows b -> ncols a = ncols b ->
  array2_eqb a b = false ->
  exists r c, in_bounds (nrows a) (ncols a) r c = true /\
              get2 false a r c <> get2 false b r c.
Proof.
  intros Hr Hc. unfold array2_eqb.
  rewrite Hr, Hc, !Nat.eqb_refl. simpl. intros E.
  apply forallb_false in E as (r & Hin_r & E).
  apply forallb_false in E as (c & Hin_c & E).
  apply in_seq in Hin_r, Hin_c.
  exists (Z.of_nat r), (Z.of_nat c). split.
  - apply in_bounds_spec. lia.
  - intros Heq. rewrite Heq in E. destruct (get2 false b _ _); discriminate.
Qed.

Section Fuel.

Variable mask : Z -> Z -> bool.

(** A pass takes no entry away. *)
Lemma dilate_increasing (a : array2 bool) (r c : Z) :
  well_formed a ->
  get2 false a r c = true -> get2 false (dilate true mask a) r c = true.
Proof.
  intros Hwf E. rewrite get2_dilate.
  rewrite (get2_false_in_bounds a r c E). simpl.
  destruct (mask r c); [|exact E].
  rewrite (get2_default true false a r c Hwf (get2_false_in_bounds a r c E)), E.
  rewrite !orb_true_r. reflexivity.
Qed.

(** A pass that changes the array fills an entry. *)
Lemma dilate_progress (a : array2 bool) :
  well_formed a ->
  array2_eqb (dilate true mask a) a = false ->
  (count_false (dilate true mask a) < count_false a)%nat.
Proof.
  intros Hwf E.
  apply array2_eqb_false in E as (r & c & Hin & Hne); [|reflexivity..].
  unfold count_false. simpl nrows in *. simpl ncols in *.
  apply (filter_length_lt _ _ _ (r, c)).
  - intros [r' c'] _. simpl. rewrite !negb_true_iff. intros Hd.
    destruct (get2 false a r' c') eqn:Ea; [|reflexivity].
    rewrite (dilate_increasing a r' c' Hwf Ea) in Hd. discriminate.
  - apply in_grid, Hin.
  - simpl. destruct (get2 false (dilate true mask a) r c) eqn:Ed; [reflexivity|].
    destruct (get2 false a r c) eqn:Ea; [|congruence].
    rewrite (dilate_increasing a r c Hwf Ea) in Ed. discriminate.
  - simpl. destruct (get2 false a r c) eqn:Ea; [|reflexivity].
    rewrite (dilate_increasing a r c Hwf Ea) in Hne. congruence.
Qed.

(** With more fuel than entries left to fill, the loop ends on an array
    that a further pass leaves as it is. *)
Lemma dilate_until_stable_stable (fuel : nat) (a : array2 bool) :
  well_formed a ->
  (count_false a < fuel)%nat ->
  array2_eqb (dilate true mask (dilate_until_stable fuel mask a))
             (dilate_until_stable fuel mask a) = true.
Proof.
  revert a; induction fuel as [|fuel IH]; intros a Hwf Hlt; [lia|].
  simpl. destruct (array2_eqb (dilate true mask a) a) eqn:E; [exact E|].
  apply IH; [apply well_formed_tabulate|].
  pose proof (dilate_progress a Hwf E). lia.
Qed.

End Fuel.

Lemma length_grid (H W : nat) : length (grid H W) = (H * W)%nat.
Proof.
  unfold grid. transitivity (length (seq 0 H) * W)%nat.
  - induction (seq 0 H) as [|r l IH]; simpl; [reflexivity|].
    rewrite length_app, length_map, length_seq, IH. reflexivity.
  - rewrite length_seq. reflexivity.
Qed.

Lemma count_false_le (a : array2 bool) : (count_false a <= nrows a * ncols a)%nat.
Proof.
  unfold count_false. rewrite <- length_grid. apply List.filter_length_le.
Qed.

(** The flood of [binary_fill_holes] ends on its fixed point. *)
Lemma binary_fill_holes_fuel (a : array2 bool) :
  let mask := fun r c => negb (get2 false a r c) in
  let outside :=
    dilate_until_stable (S (nrows a * ncols a)) mask (zeros (nrows a) (ncols a)) in
  array2_eqb (dilate true mask outside) outside = true.
Proof.
  intros mask outside. apply dilate_until_stable_stable.
  - apply well_formed_tabulate.
  - pose proof (count_false_le (zeros (nrows a) (ncols a))) as Hle.
    simpl in Hle. lia.
Qed.

(** ** Painting *)

Lemma get2_assign_channel (mask : Z -> Z -> bool) (i : nat) (v : Z)
  (im : array2 rgb) (r c : Z) :
  get2 black (assign_channel mask i v im) r c =
  if in_bounds (nrows im) (ncols im) r c && mask r c
  then set_channel i (to_uint8 v) (get2 black im r c)
  else get2 black im r c.
Proof.
  unfold assign_channel. rewrite get2_tabulate.
  destruct (in_bounds (nrows im) (ncols im) r c) eqn:E; simpl.
  - reflexivity.
  - rewrite get2_out by exact E. reflexivity.
Qed.

Lemma get2_paint_area (area : array2 Z) (color : rgb) (im : array2 rgb) (r c : Z) :
  get2 black (paint_area area color im) r c =
  if in_bounds (nrows im) (ncols im) r c && is_one area r c
  then rgb_uint8 color
  else get2 black im r c.
Proof.
  unfold paint_area. simpl. rewrite !get2_assign_channel. simpl.
  destruct (in_bounds (nrows im) (ncols im) r c && is_one area r c); reflexivity.
Qed.

Lemma get2_paint_boundary (boundary : array2 Z) (im : array2 rgb) (r c : Z) :
  get2 black (paint_boundary boundary im) r c =
  if in_bounds (nrows im) (ncols im) r c && is_one boundary r c
  then highlight
  else get2 black im r c.
Proof.
  unfold paint_boundary. simpl. rewrite !get2_assign_channel. simpl.
  destruct (in_bounds (nrows im) (ncols im) r c && is_one boundary r c); reflexivity.
Qed.

Lemma shape_paint_area (area : array2 Z) (color : rgb) (im : array2 rgb) :
  nrows (paint_area area color im) = nrows im /\
  ncols (paint_area area color im) = ncols im.
Proof. split; reflexivity. Qed.

Lemma shape_paint_boundary (boundary : array2 Z) (im : array2 rgb) :
  nrows (paint_boundary boundary im) = nrows im /\
  ncols (paint_boundary boundary im) = ncols im.
Proof. split; reflexivity. Qed.

(** ** One pass of the loop *)

Lemma loop_body_Ok (g : globals) (st st' : loop_state) (struct : Z) :
  loop_body g st struct = Ok st' ->
  exists area color,
    rasterize g (tfp st') (loc st') = Ok area /\
    colormap g !! struct = Some color /\
    (if negb (struct =? root_id)
     then transform_structure g struct = Ok (tfp st', loc st')
     else tfp st' = tfp st /\ loc st' = loc st) /\
    area_image st' = paint_area area color (area_image st) /\
    boundary_image st' =
      (if in_regions g struct
       then paint_boundary (boundary_of area) (boundary_image st)
       else boundary_image st) /\
    log st' = log st ++ [entry_of g struct area].
Proof.
  unfold loop_body, entry_of. intros E.
  apply bind_Ok in E as ([tfp' loc'] & Ecur & E).
  apply bind_Ok in E as (area & Earea & E).
  apply bind_Ok in E as (color & Ecol & E).
  simpl in Earea, E.
  destruct (colormap g !! struct) as [color'|] eqn:Ecm; [|discriminate].
  injection Ecol as ->.
  exists area, color.
  assert (Hcur : if negb (struct =? root_id)
                 then transform_structure g struct = Ok (tfp', loc')
                 else tfp' = tfp st /\ loc' = loc st).
  { destruct (negb (struct =? root_id)); [exact Ecur|].
    injection Ecur as <- <-. split; reflexivity. }
  destruct (in_regions g struct); injection E as <-; simpl; repeat split;
    solve [assumption | destruct (negb (struct =? root_id)); tauto].
Qed.

(** ** The loop *)

Lemma foldM_loop_body (g : globals) (order : list Z) (st st' : loop_state) :
  foldM (loop_body g) st order = Ok st' ->
  exists entries,
    log st' = log st ++ entries /\
    map d_struct entries = order /\
    Forall (entry_ok g) entries /\
    nrows (area_image st') = nrows (area_image st) /\
    ncols (area_image st') = ncols (area_image st) /\
    nrows (boundary_image st') = nrows (boundary_image st) /\
    ncols (boundary_image st') = ncols (boundary_image st) /\
    (forall r c,
        in_bounds (nrows (area_image st)) (ncols (area_image st)) r c = true ->
        get2 black (area_image st') r c =
        fold_left (area_step g r c) entries (get2 black (area_image st) r c)) /\
    (forall r c,
        in_bounds (nrows (boundary_image st)) (ncols (boundary_image st)) r c = true ->
        get2 black (boundary_image st') r c =
        fold_left (boundary_step r c) entries (get2 black (boundary_image st) r c)).
Proof.
  revert st; induction order as [|s order IH]; intros st E; simpl in E.
  - injection E as <-. exists []. rewrite app_nil_r.
    repeat split; try reflexivity. constructor.
  - apply bind_Ok in E as (st1 & E1 & E).
    apply loop_body_Ok in E1 as (area & color & _ & Hcol & _ & Ha & Hb & Hlog).
    apply IH in E as (entries & Hlog' & Hstructs & Hok & Hra & Hca & Hrb & Hcb & Harea & Hbnd).
    exists (entry_of g s area :: entries).
    assert (Hshape_b : nrows (boundary_image st1) = nrows (boundary_image st) /\
                       ncols (boundary_image st1) = ncols (boundary_image st)).
    { rewrite Hb. destruct (in_regions g s); split; reflexivity. }
    destruct Hshape_b as [Hrb1 Hcb1].
    rewrite Ha in Hra, Hca, Harea. simpl in Hra, Hca.
    repeat split.
    + rewrite Hlog', Hlog, <- app_assoc. reflexivity.
    + simpl. f_equal. exact Hstructs.
    + constructor; [|exact Hok]. split; [reflexivity|].
      simpl. rewrite Hcol. eexists; reflexivity.
    + exact Hra.
    + exact Hca.
    + congruence.
    + congruence.
    + intros r c Hin. rewrite Harea by exact Hin.
      simpl. f_equal. rewrite get2_paint_area, Hin. simpl.
      unfold area_step, entry_of; simpl. rewrite Hcol. reflexivity.
    + intros r c Hin. rewrite Hbnd by (rewrite Hrb1, Hcb1; exact Hin).
      simpl. f_equal. rewrite Hb. unfold boundary_step, entry_of; simpl.
      destruct (in_regions g s); [|reflexivity].
      rewrite get2_paint_boundary, Hin. reflexivity.
Qed.

Lemma map_structures_Ok (g : globals) (tfp0 : list point3) (loc0 : list nat)
  (order : list Z) (st : loop_state) :
  map_structures g tfp0 loc0 order = Ok st ->
  map d_struct (log st) = order /\
  Forall (entry_ok g) (log st) /\
  nrows (area_image st) = nrows (arr g) /\
  ncols (area_image st) = ncols (arr g) /\
  nrows (boundary_image st) = nrows (arr g) /\
  ncols (boundary_image st) = ncols (arr g) /\
  (forall r c,
      get2 black (area_image st) r c =
      if in_bounds (nrows (arr g)) (ncols (arr g)) r c
      then fold_left (area_step g r c) (log st) (get2 black (arr g) r c)
      else black) /\
  (forall r c,
      get2 black (boundary_image st) r c =
      if in_bounds (nrows (arr g)) (ncols (arr g)) r c
      then fold_left (boundary_step r c) (log st) (get2 black (arr g) r c)
      else black).
Proof.
  unfold map_structures. intros E.
  apply foldM_loop_body in E
    as (entries & Hlog & Hs & Hok & Hra & Hca & Hrb & Hcb & Ha & Hb).
  simpl in *. subst entries.
  repeat split; try assumption.
  - intros r c. destruct (in_bounds (nrows (arr g)) (ncols (arr g)) r c) eqn:E.
    + apply Ha, E.
    + apply get2_out. rewrite Hra, Hca. exact E.
  - intros r c. destruct (in_bounds (nrows (arr g)) (ncols (arr g)) r c) eqn:E.
    + apply Hb, E.
    + apply get2_out. rewrite Hrb, Hcb. exact E.
Qed.

Lemma fold_area_step_untouched (g : globals) (r c : Z) (entries : list drawn) (p : rgb) :
  (forall e, In e entries -> is_one (d_area e) r c = false) ->
  fold_left (area_step g r c) entries p = p.
Proof.
  revert p; induction entries as [|e entries IH]; intros p Hall; simpl; [reflexivity|].
  unfold area_step at 2. rewrite (Hall e) by (left; reflexivity).
  apply IH. intros e' Hin. apply Hall. right; exact Hin.
Qed.

Lemma fold_boundary_step_untouched (r c : Z) (entries : list drawn) (p : rgb) :
  (forall e b, In e entries -> d_boundary e = Some b -> is_one b r c = false) ->
  fold_left (boundary_step r c) entries p = p.
Proof.
  revert p; induction entries as [|e entries IH]; intros p Hall; simpl; [reflexivity|].
  unfold boundary_step at 2.
  destruct (d_boundary e) as [b|] eqn:Eb.
  - rewrite (Hall e b) by (auto; left; reflexivity).
    apply IH. intros e' b' Hin. apply Hall. right; exact Hin.
  - apply IH. intros e' b' Hin. apply Hall. right; exact Hin.
Qed.

(** ** The section-plane selector *)

Lemma np_where_from_In (i k : nat) (l : list bool) :
  In i (np_where_from k l) <-> (k <= i)%nat /\ nth_error l (i - k) = Some true.
Proof.
  revert k; induction l as [|b l IH]; intros k; simpl.
  - split; [tauto|]. intros [_ E]. destruct (i - k)%nat; discriminate.
  - assert (Hcase : In i (np_where_from (S k) l) <->
                    (k <= i)%nat /\ i <> k /\ nth_error (b :: l) (i - k) = Some true).
    { rewrite IH. split.
      - intros [Hle E]. repeat split; [lia | lia |].
        replace (i - k)%nat with (S (i - S k)) by lia. exact E.
      - intros (Hle & Hne & E). split; [lia|].
        replace (i - k)%nat with (S (i - S k)) in E by lia. exact E. }
    destruct b; simpl; rewrite Hcase; clear Hcase.
    + split.
      * intros [<-|(Hle & Hne & E)]; [|tauto].
        split; [lia|]. rewrite Nat.sub_diag. reflexivity.
      * intros [Hle E]. destruct (Nat.eq_dec k i) as [->|Hne]; [left; reflexivity|].
        right. repeat split; [lia | lia | exact E].
    + split; [tauto|]. intros [Hle E]. repeat split; [exact Hle | | exact E].
      intros ->. rewrite Nat.sub_diag in E. discriminate.
Qed.

Lemma section_loc_In (tfp : list point3) (sec : Z) (i : nat) :
  In i (section_loc tfp sec) <->
  exists p, nth_error tfp i = Some p /\ on_section sec p = true.
Proof.
  unfold section_loc, np_where, sections, on_section.
  rewrite np_where_from_In, Nat.sub_0_r, map_map, nth_error_map.
  split.
  - intros [_ E]. destruct (nth_error tfp i) as [p|]; [|discriminate].
    exists p. split; [reflexivity|]. injection E as E. exact E.
  - intros (p & -> & E). split; [lia|]. cbv [option_map]. f_equal. exact E.
Qed.

Lemma section_loc_lt (tfp : list point3) (sec : Z) :
  Forall (fun i => (i < length tfp)%nat) (section_loc tfp sec).
Proof.
  apply List.Forall_forall. intros i Hin.
  apply section_loc_In in Hin as (p & E & _).
  apply nth_error_Some. congruence.
Qed.

(** [round_half_even m k] is a nearest integer to [m / 2^k], and the even
    one of the two when [m / 2^k] lies halfway. *)
Lemma round_half_even_nearest (m k : Z) :
  0 <= m -> 0 < k ->
  let n := F64.round_half_even m k in
  2 * Z.abs (m - n * 2 ^ k) <= 2 ^ k /\
  (2 * Z.abs (m - n * 2 ^ k) = 2 ^ k -> Z.even n = true).
Proof.
  intros Hm Hk. unfold F64.round_half_even.
  assert (Hp : 0 < 2 ^ k) by (apply Z.pow_pos_nonneg; lia).
  pose proof (Z.div_mod m (2 ^ k) ltac:(lia)) as Hdm.
  pose proof (Z.mod_pos_bound m (2 ^ k) Hp) as Hr.
  set (q := m / 2 ^ k) in *. set (r := m mod 2 ^ k) in *. set (P := 2 ^ k) in *.
  destruct (Z.compare_spec (2 * r) P) as [E|E|E]; cbv zeta.
  - destruct (Z.even q) eqn:Ev.
    + split; [nia | intros _; exact Ev].
    + split; [nia|]. intros _.
      rewrite Z.even_add, Ev. reflexivity.
  - split; [nia | nia].
  - split; [nia | nia].
Qed.

(** C1 fails as stated: the code does not reject the third point of the
    scenario.  [6250.0/100] is exactly [62.5] and [np.round] sends a tie to
    the even neighbour, 62, so the point at index 2 is selected too. *)
Lemma C1_third_point_not_rejected :
  ~ (section_loc scenario_tfp 62 = [0; 1]%nat).
Proof. vm_compute. discriminate. Qed.

(** C1, amended.  A transformed point is selected exactly when its depth
    coordinate, divided by 100 in float64 and rounded to the nearest integer
    with ties to even, equals the section index.  For the z-coordinates
    [6185.3, 6201.8, 6250.0] and section 62 all three points are selected;
    the tie [63.5] rounds to 64, away from section 63; and the rounding rule
    picks a nearest integer, the even one on a tie. *)
Theorem C1_section_selection :
  (forall (tfp : list point3) (sec : Z) (i : nat),
      In i (section_loc tfp sec) <->
      exists p, nth_error tfp i = Some p /\
                F64.eqb (F64.rint (F64.div (pz p) (F64.of_Z 100))) (F64.of_Z sec) = true) /\
  section_loc scenario_tfp 62 = [0; 1; 2]%nat /\
  section_loc [(zero, zero, F64.of_decimal 63500 1)] 63 = [] /\
  section_loc [(zero, zero, F64.of_decimal 63500 1)] 64 = [0%nat] /\
  (forall m k : Z, 0 <= m -> 0 < k ->
      2 * Z.abs (m - F64.round_half_even m k * 2 ^ k) <= 2 ^ k /\
      (2 * Z.abs (m - F64.round_half_even m k * 2 ^ k) = 2 ^ k ->
       Z.even (F64.round_half_even m k) = true)).
Proof.
  split; [exact section_loc_In|].
  split; [vm_compute; reflexivity|].
  split; [vm_compute; reflexivity|].
  split; [vm_compute; reflexivity|].
  intros m k Hm Hk. exact (round_half_even_nearest m k Hm Hk).
Qed.

(** ** The 2D projection *)

Lemma index_rows_acc (tfp : list point3) (d : point3) (loc : list nat)
  (acc : list point3) :
  Forall (fun i => (i < length tfp)%nat) loc ->
  foldM (fun acc i =>
           match nth_error tfp i with
           | Some p => Ok (acc ++ [p])
           | None => Raise IndexError
           end) acc loc
  = Ok (acc ++ map (fun i => nth i tfp d) loc).
Proof.
  revert acc; induction loc as [|i loc IH]; intros acc Hlt; simpl.
  - rewrite app_nil_r. reflexivity.
  - inversion Hlt as [|? ? Hi Hrest]; subst.
    destruct (nth_error tfp i) as [p|] eqn:E.
    + simpl. rewrite IH by exact Hrest.
      rewrite <- app_assoc. simpl.
      rewrite (nth_error_nth tfp i d E). reflexivity.
    + apply nth_error_None in E. lia.
Qed.

Lemma index_rows_xy_Ok (tfp : list point3) (d : point3) (loc : list nat) :
  tfp <> [] ->
  Forall (fun i => (i < length tfp)%nat) loc ->
  index_rows_xy tfp loc =
  Ok (NDArray [1%nat; length loc; 2%nat]
        (flat_map (fun i => [px (nth i tfp d); py (nth i tfp d)]) loc)).
Proof.
  intros Hne Hlt. unfold index_rows_xy.
  destruct tfp as [|p0 tfp']; [congruence|].
  rewrite (index_rows_acc (p0 :: tfp') d loc [] Hlt). simpl.
  do 2 f_equal. rewrite flat_map_concat_map, map_map, <- flat_map_concat_map.
  reflexivity.
Qed.

Lemma pairs_flat_map {A} (f g : A -> F64.t) (h : F64.t -> F64.t) (l : list A) :
  pairs (map h (flat_map (fun a => [f a; g a]) l)) =
  map (fun a => (h (f a), h (g a))) l.
Proof. induction l as [|a l IH]; simpl; [reflexivity | rewrite IH; reflexivity]. Qed.

Lemma even_length_flat_map {A} (f g : A -> F64.t) (h : F64.t -> F64.t) (l : list A) :
  Nat.even (length (map h (flat_map (fun a => [f a; g a]) l))) = true.
Proof. induction l as [|a l IH]; simpl; [reflexivity | exact IH]. Qed.

Lemma mapped_points_rows (twoD : F64.t) (tfp : list point3) (d : point3)
  (loc : list nat) :
  tfp <> [] ->
  Forall (fun i => (i < length tfp)%nat) loc ->
  exists mp,
    mapped_points twoD tfp loc = Ok mp /\
    data mp = map (to_pixels twoD)
                (flat_map (fun i => [px (nth i tfp d); py (nth i tfp d)]) loc).
Proof.
  intros Hne Hlt. unfold mapped_points.
  rewrite (index_rows_xy_Ok tfp d loc Hne Hlt). simpl.
  eexists; split; [reflexivity|]. simpl. rewrite map_map. reflexivity.
Qed.

(** C2 fails as stated.  With an image pixel size of 0.5 micron the code
    maps x = 1600 to pixel 200 and y = 800 to pixel 100.  Pixel size over
    volume resolution, 0.5/25, gives neither under either adjustment by
    [2^4]; no more does the ratio with [twoD = 2.0] in the place of the
    pixel size, or either ratio turned upside down.  Doubling the pixel size
    halves the code's coordinates. *)
Lemma C2_scale_is_not_pixel_size_over_resolution :
  (twoD_of (F64.of_decimal 5 1) ≫= fun t =>
     mapped_points t c2_tfp (section_loc c2_tfp 62) ≫= reshape_rows2)
  = Ok [(F64.of_Z 200, F64.of_Z 100)] /\
  forallb (fun ratio : F64.t * F64.t =>
    forallb (fun shrink =>
      negb (F64.eqb (F64.mul (F64.of_Z 1600)
                       (claimed_scale (fst ratio) (snd ratio) 4 shrink))
                    (F64.of_Z 200)))
      [true; false])
    [ (F64.of_decimal 5 1, F64.of_Z 25); (F64.of_Z 2, F64.of_Z 25);
      (F64.of_Z 25, F64.of_decimal 5 1); (F64.of_Z 25, F64.of_Z 2) ] = true /\
  (twoD_of (F64.of_Z 1) ≫= fun t =>
     mapped_points t c2_tfp (section_loc c2_tfp 62) ≫= reshape_rows2)
  = Ok [(F64.of_Z 100, F64.of_Z 50)].
Proof. vm_compute. repeat split; reflexivity. Qed.

(** C2, amended.  The selected points' pixel coordinates are their
    transformed x and y, each multiplied by [twoD = 1.0/resolution], the
    reciprocal of the image pixel size, and divided by [2^4] for the
    downsample level; the volume resolution takes no part.  The rounded
    corners the rasterizer uses are these, and these plus [size], through
    [np.round] and [astype(int)]. *)
Theorem C2_projection_scale (resolution twoD' size' : F64.t)
  (tfp : list point3) (sec : Z) (d : point3) :
  twoD_of resolution = Ok twoD' ->
  tfp <> [] ->
  let loc := section_loc tfp sec in
  let scale := fun v =>
    F64.div (F64.mul v (F64.div (F64.of_Z 1) resolution)) (F64.of_Z 16) in
  (exists mp,
      mapped_points twoD' tfp loc = Ok mp /\
      reshape_rows2 mp =
      Ok (map (fun i => (scale (px (nth i tfp d)), scale (py (nth i tfp d)))) loc)) /\
  footprints twoD' size' tfp loc =
  Ok (map (fun i =>
             let x := scale (px (nth i tfp d)) in
             let y := scale (py (nth i tfp d)) in
             ((F64.astype_int (F64.rint x), F64.astype_int (F64.rint y)),
              (F64.astype_int (F64.rint (F64.add x size')),
               F64.astype_int (F64.rint (F64.add y size'))))) loc).
Proof.
  intros Htwo Hne loc scale.
  assert (HtwoD : twoD' = F64.div (F64.of_Z 1) resolution).
  { unfold twoD_of in Htwo. destruct resolution; congruence. }
  assert (Hscale : forall v, to_pixels twoD' v = scale v).
  { intros v. unfold to_pixels, scale. rewrite HtwoD. reflexivity. }
  destruct (mapped_points_rows twoD' tfp d loc Hne (section_loc_lt tfp sec))
    as (mp & Emp & Edata).
  assert (Hrows : forall h : F64.t -> F64.t,
             reshape_rows2 (ndarray_map h mp) =
             Ok (map (fun i => (h (scale (px (nth i tfp d))),
                                h (scale (py (nth i tfp d))))) loc)).
  { intros h. unfold reshape_rows2, ndarray_map. simpl. rewrite Edata, map_map.
    rewrite even_length_flat_map, pairs_flat_map.
    f_equal. apply map_ext. intros i. rewrite !Hscale. reflexivity. }
  split.
  - exists mp. split; [exact Emp|].
    specialize (Hrows (fun v => v)).
    unfold ndarray_map in Hrows. rewrite map_id in Hrows.
    destruct mp; exact Hrows.
  - unfold footprints. rewrite Emp. simpl.
    rewrite (Hrows F64.rint).
    assert (Hnext : reshape_rows2
                      (ndarray_map F64.rint (ndarray_map (fun v => F64.add v size') mp)) =
                    Ok (map (fun i => (F64.rint (F64.add (scale (px (nth i tfp d))) size'),
                                       F64.rint (F64.add (scale (py (nth i tfp d))) size')))
                          loc)).
    { rewrite <- (Hrows (fun v => F64.rint (F64.add v size'))).
      unfold ndarray_map. simpl. rewrite map_map. reflexivity. }
    rewrite Hnext. simpl. f_equal.
    clear. induction loc as [|i loc IH]; simpl; [reflexivity|].
    rewrite IH. reflexivity.
Qed.

(** A witness for [C2_projection_scale]: the point of [c2_tfp] under a pixel
    size of 0.5 micron. *)
Lemma C2_projection_scale_witness :
  (exists mp,
      mapped_points (F64.of_Z 2) c2_tfp (section_loc c2_tfp 62) = Ok mp /\
      reshape_rows2 mp = Ok [(F64.of_Z 200, F64.of_Z 100)]) /\
  footprints (F64.of_Z 2) (size_of (F64.of_Z 2)) c2_tfp (section_loc c2_tfp 62) =
  Ok [((200, 100), (203, 103))].
Proof.
  exact (C2_projection_scale (F64.of_decimal 5 1) (F64.of_Z 2) (size_of (F64.of_Z 2))
           c2_tfp 62 (zero, zero, zero) eq_refl ltac:(discriminate)).
Defined.

(** ** Structure discovery and the requested regions *)

Lemma add_regions_In (regions structures : list Z) (x : Z) :
  In x structures \/ In x regions -> In x (add_regions regions structures).
Proof.
  unfold add_regions. revert structures.
  induction regions as [|region regions IH]; intros structures Hin; simpl.
  - destruct Hin as [Hin|[]]; exact Hin.
  - apply IH.
    destruct (existsb (Z.eqb region) structures) eqn:E.
    + destruct Hin as [Hin|[<-|Hin]]; [left; exact Hin | | right; exact Hin].
      left. apply existsb_exists in E as (y & Hy & Ey).
      apply Z.eqb_eq in Ey. subst y. exact Hy.
    + destruct Hin as [Hin|[<-|Hin]]; [| | right; exact Hin];
        left; apply in_or_app; [left; exact Hin | right; left; reflexivity].
Qed.

Lemma stores_lookup_other (name : string) (names : list string)
  (ns : gmap string pyobj) :
  forallb (fun n => negb (String.eqb n name)) names = true ->
  stores names ns !! name = ns !! name.
Proof.
  unfold stores. revert ns; induction names as [|n names IH]; intros ns Hall; simpl.
  - reflexivity.
  - simpl in Hall. apply andb_true_iff in Hall as [Hn Hall].
    rewrite IH by exact Hall.
    apply lookup_insert_ne. intros ->.
    rewrite String.eqb_refl in Hn. discriminate.
Qed.

Lemma cell_keeps_unbound (name : string) (reads writes : list string)
  (ns ns' : gmap string pyobj) :
  forallb (fun n => negb (String.eqb n name)) writes = true ->
  cell reads writes ns = Ok ns' -> ns !! name = None -> ns' !! name = None.
Proof.
  unfold cell. intros Hw E Hnone.
  apply bind_Ok in E as (? & _ & E). injection E as <-.
  rewrite stores_lookup_other by exact Hw. exact Hnone.
Qed.

Lemma run_cells_keeps_unbound (name : string)
  (cs : list (gmap string pyobj -> result (gmap string pyobj))) :
  Forall (keeps_unbound name) cs -> keeps_unbound name (run_cells cs).
Proof.
  unfold run_cells. induction 1 as [|c cs Hc _ IH]; intros ns ns' E Hnone; simpl in E.
  - injection E as <-. exact Hnone.
  - apply bind_Ok in E as (ns1 & E1 & E).
    exact (IH ns1 ns' E (Hc ns ns1 E1 Hnone)).
Qed.

Lemma cell_17_keeps_regions_unbound (acrnm_map : gmap string Z) :
  keeps_unbound "regions" (cell_17 acrnm_map).
Proof.
  intros ns ns' E Hnone. unfold cell_17 in E.
  apply bind_Ok in E as (? & _ & E). apply bind_Ok in E as (ids & _ & E).
  injection E as <-. rewrite lookup_insert_ne by discriminate. exact Hnone.
Qed.

Lemma cell_28_keeps_regions_unbound (g : globals) :
  keeps_unbound "regions" (cell_28 g).
Proof.
  intros ns ns' E Hnone. unfold cell_28 in E.
  apply bind_Ok in E as (? & _ & E). apply bind_Ok in E as (s & _ & E).
  injection E as <-. unfold stores; simpl.
  rewrite !lookup_insert_ne by discriminate. exact Hnone.
Qed.

(** No cell before cell 30 binds the name [regions]. *)
Lemma regions_unbound_before_30 (g : globals) (acrnm_map : gmap string Z)
  (ns : gmap string pyobj) :
  run_cells (cells_before_30 g acrnm_map) ∅ = Ok ns -> ns !! "regions" = None.
Proof.
  intros E.
  apply (run_cells_keeps_unbound "regions" (cells_before_30 g acrnm_map)) with (ns := ∅);
    [|exact E|apply lookup_empty].
  unfold cells_before_30.
  repeat (constructor;
          [ first [ apply cell_17_keeps_regions_unbound
                  | apply cell_28_keeps_regions_unbound
                  | unfold keeps_unbound; intros n n' En Hn;
                    eapply (cell_keeps_unbound "regions");
                    [ | exact En | exact Hn ]; reflexivity ] | ]).
  constructor.
Qed.

(** C3 is right and the notebook misses it.  Cell 17 binds the requested ids
    to [regions_of_interest]; the union loop of cell 30 reads [regions], a
    name that only exists as a local of [get_structure_ids].  Run from the
    top, no specimen and no acronym table gets past cell 30; for the
    scenario's five acronyms the earlier cells bind
    [[1008, 1014, 218, 1029, 215]] to [regions_of_interest] and cell 30
    raises [NameError] for [regions].  The loop itself would union in every
    id of the list it is given. *)
Theorem C3_requested_regions_not_read :
  (forall g acrnm_map, is_ok (run_to_cell_30 g acrnm_map) = false) /\
  is_ok (run_cells (cells_before_30 demo demo_acrnm_map) ∅) = true /\
  demo_namespace !! "regions_of_interest" = Some (PyIds [1008; 1014; 218; 1029; 215]) /\
  demo_namespace !! "regions" = None /\
  run_to_cell_30 demo demo_acrnm_map = Raise (NameError "regions") /\
  (forall regions structures x,
      In x structures \/ In x regions -> In x (add_regions regions structures)).
Proof.
  split.
  { intros g acrnm_map. unfold run_to_cell_30.
    destruct (run_cells (cells_before_30 g acrnm_map) ∅) as [ns|e] eqn:E; [|reflexivity].
    simpl. unfold cell_30, load.
    rewrite (regions_unbound_before_30 g acrnm_map ns E). reflexivity. }
  split; [vm_compute; reflexivity|].
  split; [vm_compute; reflexivity|].
  split; [vm_compute; reflexivity|].
  split; [vm_compute; reflexivity|].
  exact add_regions_In.
Qed.

(** ** The painting order *)

Section Argsort.

Variable key : nat -> nat.

Lemma insert_by_Permutation (i : nat) (l : list nat) :
  Permutation (insert_by key i l) (i :: l).
Proof.
  induction l as [|j l IH]; simpl; [reflexivity|].
  destruct (key i <=? key j)%nat; [reflexivity|].
  rewrite IH. apply perm_swap.
Qed.

Lemma insert_by_sorted (i : nat) (l : list nat) :
  StronglySorted (fun a b => (key a <= key b)%nat) l ->
  StronglySorted (fun a b => (key a <= key b)%nat) (insert_by key i l).
Proof.
  induction l as [|j l IH]; intros Hs; simpl.
  - constructor; constructor.
  - inversion Hs as [|? ? Hl Hj]; subst.
    destruct (key i <=? key j)%nat eqn:E.
    + apply Nat.leb_le in E. constructor; [exact Hs|].
      constructor; [exact E|].
      eapply List.Forall_impl; [|exact Hj]. simpl. intros k Hk. lia.
    + apply Nat.leb_gt in E. constructor; [apply IH, Hl|].
      rewrite (insert_by_Permutation i l).
      constructor; [lia | exact Hj].
Qed.

End Argsort.

Lemma argsort_Permutation (keys : list nat) :
  Permutation (argsort keys) (seq 0 (length keys)).
Proof.
  unfold argsort. induction (seq 0 (length keys)) as [|i l IH]; simpl; [reflexivity|].
  rewrite insert_by_Permutation, IH. reflexivity.
Qed.

Lemma argsort_sorted (keys : list nat) :
  StronglySorted (fun a b => (nth a keys 0 <= nth b keys 0)%nat) (argsort keys).
Proof.
  unfold argsort. induction (seq 0 (length keys)) as [|i l IH]; simpl.
  - constructor.
  - apply (insert_by_sorted (fun i => nth i keys 0%nat)), IH.
Qed.

Lemma take_indx_seq (l : list Z) : take_indx l (seq 0 (length l)) = l.
Proof.
  unfold take_indx. induction l as [|x l IH]; simpl; [reflexivity|].
  f_equal. rewrite <- seq_shift, map_map. exact IH.
Qed.

(** The code's own order is a rearrangement of the structures in ascending
    chain length. *)
Lemma sorted_indx_order (g : globals) (structures : list Z) :
  Permutation (take_indx structures (sorted_indx g structures)) structures /\
  depth_sorted g (take_indx structures (sorted_indx g structures)).
Proof.
  unfold sorted_indx.
  set (keys := map (fun s => length (ancestor_ids g s)) structures).
  pose proof (argsort_Permutation keys) as Hperm.
  pose proof (argsort_sorted keys) as Hsorted.
  assert (Hlen : length keys = length structures) by (unfold keys; apply length_map).
  rewrite Hlen in Hperm.
  split.
  - rewrite <- (take_indx_seq structures) at 2.
    unfold take_indx. apply Permutation_map, Hperm.
  - assert (Hrange : Forall (fun i => (i < length structures)%nat) (argsort keys)).
    { apply List.Forall_forall. intros i Hin.
      apply (Permutation_in _ Hperm) in Hin. apply in_seq in Hin. lia. }
    unfold depth_sorted, take_indx. clear Hperm.
    induction Hsorted as [|i l Hl IH Hi]; simpl; [constructor|].
    inversion Hrange as [|? ? Hi_lt Hl_lt]; subst.
    constructor; [apply IH, Hl_lt|].
    rewrite List.Forall_forall in Hi, Hl_lt.
    apply List.Forall_forall. intros s Hin.
    apply in_map_iff in Hin as (j & <- & Hj).
    specialize (Hi j Hj). specialize (Hl_lt j Hj). unfold keys in Hi.
    rewrite !(nth_indep _ 0%nat (length (ancestor_ids g 0))) in Hi
      by (rewrite length_map; assumption).
    rewrite !(map_nth (fun s => length (ancestor_ids g s))) in Hi. exact Hi.
Qed.

Lemma sorted_before {A} (key : A -> nat) (order : list A) (a d : A) :
  StronglySorted (fun x y => (key x <= key y)%nat) order ->
  In a order -> In d order -> (key a < key d)%nat ->
  exists o1 o2 o3, order = o1 ++ a :: o2 ++ d :: o3.
Proof.
  intros Hs. induction Hs as [|x rest Hrest IH Hx]; intros Ha Hd Hlt.
  - destruct Ha.
  - rewrite List.Forall_forall in Hx.
    destruct Ha as [->|Ha].
    + destruct Hd as [->|Hd]; [lia|].
      apply in_split in Hd as (o2 & o3 & ->).
      exists [], o2, o3. reflexivity.
    + destruct Hd as [->|Hd].
      * specialize (Hx a Ha). lia.
      * destruct (IH Ha Hd Hlt) as (o1 & o2 & o3 & ->).
        exists (x :: o1), o2, o3. reflexivity.
Qed.

Lemma fold_area_step_last (g : globals) (r c : Z) (before after : list drawn)
  (e : drawn) (color p : rgb) :
  is_one (d_area e) r c = true ->
  colormap g !! d_struct e = Some color ->
  (forall e', In e' after -> is_one (d_area e') r c = false) ->
  fold_left (area_step g r c) (before ++ e :: after) p = rgb_uint8 color.
Proof.
  intros Hone Hcol Hafter.
  rewrite fold_left_app. simpl.
  rewrite fold_area_step_untouched by exact Hafter.
  unfold area_step. rewrite Hone, Hcol. reflexivity.
Qed.

(** C4 fails as stated.  In the small specimen 8 is an ancestor of 549, the
    masks of both cover pixel (3, 3), and the pixel ends with the colour of
    1008, a descendant of 549 painted later, not with the colour of 549. *)
Lemma C4_deeper_structure_overpaints :
  draw_structures demo = Ok demo_final /\
  map (fun e => (d_struct e, is_one (d_area e) 3 3)) (log demo_final) =
    [(8, true); (218, false); (549, true); (1008, true)] /\
  In 8 (ancestor_ids demo 549) /\
  colormap demo !! 549 = Some (255, 112, 128) /\
  get2 black (area_image demo_final) 3 3 = (255, 128, 132).
Proof. vm_compute. repeat split; try reflexivity. right; left; reflexivity. Qed.

(** C4, amended.  The passes run in ascending order of ancestor-chain
    length, whatever the order of discovery and however ties are broken; a
    descendant is painted after each of its ancestors, and a pixel in the
    masks of both holds the descendant's colour when no structure painted
    after the descendant covers it. *)
Theorem C4_depth_ordered_painting (g : globals) (tfp0 : list point3)
  (loc0 : list nat) (order : list Z) (st : loop_state) (a d : Z) :
  depth_sorted g order ->
  chains_grow g ->
  map_structures g tfp0 loc0 order = Ok st ->
  In a order -> In d order ->
  In a (ancestor_ids g d) -> a <> d ->
  (forall structures,
      Permutation (take_indx structures (sorted_indx g structures)) structures /\
      depth_sorted g (take_indx structures (sorted_indx g structures))) /\
  map d_struct (log st) = order /\
  exists before ea between ed after color,
    log st = before ++ ea :: between ++ ed :: after /\
    d_struct ea = a /\ d_struct ed = d /\
    colormap g !! d = Some color /\
    forall r c,
      in_bounds (nrows (arr g)) (ncols (arr g)) r c = true ->
      is_one (d_area ea) r c = true ->
      is_one (d_area ed) r c = true ->
      (forall e, In e after -> is_one (d_area e) r c = false) ->
      get2 black (area_image st) r c = rgb_uint8 color.
Proof.
  intros Hsorted Htree E Ha Hd Hanc Hne.
  apply map_structures_Ok in E as (Hstructs & Hok & _ & _ & _ & _ & Harea & _).
  split; [exact (sorted_indx_order g)|].
  split; [exact Hstructs|].
  destruct (sorted_before (fun s => length (ancestor_ids g s)) order a d
              Hsorted Ha Hd (Htree a d Hanc Hne)) as (o1 & o2 & o3 & Horder).
  rewrite Horder in Hstructs.
  apply map_eq_app in Hstructs as (before & rest & Hlog & _ & Hrest).
  apply map_eq_cons in Hrest as (ea & rest' & -> & Hea & Hrest).
  apply map_eq_app in Hrest as (between & rest'' & -> & _ & Hrest).
  apply map_eq_cons in Hrest as (ed & after & -> & Hed & _).
  assert (Hcol : is_Some (colormap g !! d)).
  { rewrite List.Forall_forall in Hok. rewrite <- Hed. apply (Hok ed).
    rewrite Hlog. apply in_or_app. right. right. apply in_or_app. right. left.
    reflexivity. }
  destruct Hcol as [color Hcol].
  exists before, ea, between, ed, after, color.
  repeat split; try assumption.
  intros r c Hin _ Hone Hafter.
  rewrite Harea, Hin, Hlog.
  replace (before ++ ea :: between ++ ed :: after)
    with ((before ++ ea :: between) ++ ed :: after)
    by (rewrite <- app_assoc; reflexivity).
  apply fold_area_step_last; [exact Hone | rewrite Hed; exact Hcol | exact Hafter].
Qed.

Lemma demo_chains_grow : chains_grow demo.
Proof.
  intros x y Hin Hne. change (ancestor_ids demo) with demo_ancestor_ids in *.
  unfold demo_ancestor_ids in Hin |- * at 2.
  demo_structure_cases Hin; try congruence; vm_compute; lia.
Qed.

(** A witness for [C4_depth_ordered_painting]: structures 549 and 1008 of
    the small specimen. *)
Lemma C4_depth_ordered_painting_witness :
  map d_struct (log demo_final) = demo_order /\
  exists before ea between ed after color,
    log demo_final = before ++ ea :: between ++ ed :: after /\
    d_struct ea = 549 /\ d_struct ed = 1008 /\
    colormap demo !! 1008 = Some color.
Proof.
  destruct (C4_depth_ordered_painting demo (tfp demo_start) (loc demo_start)
              demo_order demo_final 549 1008)
    as (_ & Hlog & before & ea & between & ed & after & color & H1 & H2 & H3 & H4 & _).
  - unfold depth_sorted, demo_order.
    repeat (constructor; [|repeat (constructor; [vm_compute; lia|]); constructor]).
    constructor.
  - exact demo_chains_grow.
  - vm_compute; reflexivity.
  - vm_compute; tauto.
  - vm_compute; tauto.
  - vm_compute; tauto.
  - discriminate.
  - split; [exact Hlog|].
    exists before, ea, between, ed, after, color. repeat split; assumption.
Defined.

(** ** The coordinate mapper *)

(** C5.  Every voxel coordinate is scaled by 25, then sent through the
    displacement-field transform, then through the affine transform, in
    cell 28 for the root mask and in cell 34 for each structure; with a
    shift for the field and a doubling for the affine map, voxel x = 1 lands
    on 2 * (25 + 1) = 52, not on 2 * 25 + 1 = 51. *)
Theorem C5_mapper_composition (g : globals) (struct : Z) :
  (forall points,
      tfp_of g points =
      map (fun p => aff_TransformPoint g (dfmfld_TransformPoint g (scale25 p))) points) /\
  find_structures g =
    (let root_voxels := structure_voxels g root_id in
     let tfp := map (fun p => aff_TransformPoint g (dfmfld_TransformPoint g (scale25 p)))
                    (points_of root_voxels) in
     loc ← select_section g tfp;
     labels ← anno_slices g
                (np_unique (map (fun i => fst (fst (nth i root_voxels (0, 0, 0)))) loc));
     Ok (SectionState tfp loc (tl (np_unique labels)))) /\
  transform_structure g struct =
    (let tfp := map (fun p => aff_TransformPoint g (dfmfld_TransformPoint g (scale25 p)))
                    (points_of (structure_voxels g struct)) in
     loc ← select_section g tfp; Ok (tfp, loc)) /\
  map px (tfp_of (demo_with [] shift_x double_x) (points_of [(1, 0, 0)])) = [F64.of_Z 52].
Proof.
  assert (H : forall points,
             tfp_of g points =
             map (fun p => aff_TransformPoint g (dfmfld_TransformPoint g (scale25 p))) points).
  { intros points. unfold tfp_of, dfp_of. rewrite !map_map. reflexivity. }
  split; [exact H|].
  split; [unfold find_structures; rewrite H; reflexivity|].
  split; [unfold transform_structure; rewrite H; reflexivity|].
  vm_compute. reflexivity.
Qed.

(** ** Region boundaries *)

Lemma rasterize_Ok (g : globals) (tfp : list point3) (loc : list nat) (area : array2 Z) :
  rasterize g tfp loc = Ok area ->
  exists blank, area = area_of blank.
Proof.
  unfold rasterize. intros E. apply bind_Ok in E as (fps & _ & E).
  injection E as <-. eexists; reflexivity.
Qed.

Lemma is_one_area_of (blank : array2 bool) (r c : Z) :
  is_one (area_of blank) r c = get2 false (as_bool (area_of blank)) r c.
Proof.
  rewrite get2_as_bool. unfold is_one, area_of. rewrite get2_astype_int.
  destruct (get2 false _ r c); reflexivity.
Qed.

Lemma is_one_boundary_of (blank : array2 bool) (r c : Z) :
  is_one (boundary_of (area_of blank)) r c =
  is_one (area_of blank) r c && negb (get2 false (inner_of (area_of blank)) r c).
Proof.
  unfold is_one at 1, boundary_of. rewrite get2_tabulate.
  destruct (in_bounds (nrows (area_of blank)) (ncols (area_of blank)) r c) eqn:E.
  - rewrite get2_astype_int. unfold is_one, area_of at 1 3. rewrite !get2_astype_int.
    destruct (get2 false (binary_closing _) r c);
      destruct (get2 false (inner_of _) r c); reflexivity.
  - unfold is_one. rewrite get2_out by exact E. reflexivity.
Qed.

Lemma inner_of_ball (blank : array2 bool) (r c : Z) :
  get2 false (inner_of (area_of blank)) r c = true <->
  forall r' c', Z.abs (r' - r) + Z.abs (c' - c) <= 6 ->
                is_one (area_of blank) r' c' = true.
Proof.
  unfold inner_of, erosion_iterations. rewrite iter_erosion_ball.
  split; intros Hall r' c' Hd.
  - rewrite is_one_area_of. apply Hall. exact Hd.
  - rewrite <- is_one_area_of. apply Hall. exact Hd.
Qed.

(** C6.  A pass computes [boundary] as [area] minus six erosions of [area],
    and paints it when the structure is in [regions].  [boundary] is one
    only where [area] is one: on the entries of [area] that have, within
    city-block distance 6, an entry where [area] is not one or a position
    outside the image. *)
Theorem C6_boundary_containment (g : globals) (st st' : loop_state) (struct : Z) :
  loop_body g st struct = Ok st' ->
  exists area,
    log st' = log st ++ [entry_of g struct area] /\
    boundary_image st' =
      (if in_regions g struct
       then paint_boundary (boundary_of area) (boundary_image st)
       else boundary_image st) /\
    (forall r c, is_one (boundary_of area) r c = true -> is_one area r c = true) /\
    (forall r c,
        is_one (boundary_of area) r c =
        is_one area r c &&
        negb (get2 false (Nat.iter 6 binary_erosion (as_bool area)) r c)) /\
    (forall r c,
        is_one (boundary_of area) r c = true <->
        is_one area r c = true /\
        ~ (forall r' c', Z.abs (r' - r) + Z.abs (c' - c) <= 6 ->
                         is_one area r' c' = true)).
Proof.
  intros E.
  apply loop_body_Ok in E as (area & color & Hras & _ & _ & _ & Hb & Hlog).
  apply rasterize_Ok in Hras as (blank & ->).
  exists (area_of blank).
  split; [exact Hlog|]. split; [exact Hb|].
  split; [|split].
  - intros r c. rewrite is_one_boundary_of, andb_true_iff. tauto.
  - intros r c. exact (is_one_boundary_of blank r c).
  - intros r c. rewrite is_one_boundary_of, andb_true_iff, negb_true_iff.
    rewrite <- inner_of_ball.
    destruct (get2 false (inner_of (area_of blank)) r c); split.
    + intros [_ ?]; discriminate.
    + intros [_ Hn]. exfalso; apply Hn; reflexivity.
    + intros [? _]. split; [assumption | discriminate].
    + intros [? _]. split; [assumption | reflexivity].
Qed.

(** A witness for [C6_boundary_containment]: the pass for structure 1008 of
    the small specimen, a structure in [regions]. *)
Lemma C6_boundary_containment_witness :
  exists area,
    log demo_after_1008 = log demo_start ++ [Drawn 1008 area (Some (boundary_of area))] /\
    boundary_image demo_after_1008 =
      paint_boundary (boundary_of area) (boundary_image demo_start) /\
    forall r c, is_one (boundary_of area) r c = true -> is_one area r c = true.
Proof.
  destruct (C6_boundary_containment demo demo_start demo_after_1008 1008
              ltac:(vm_compute; reflexivity))
    as (area & Hlog & Hb & Hsub & _).
  exists area. split; [exact Hlog|]. split; [exact Hb | exact Hsub].
Defined.

(** ** A region with no voxel on the section *)

Lemma footprints_nil (twoD size : F64.t) (tfp : list point3) :
  tfp <> [] -> footprints twoD size tfp [] = Ok [].
Proof. destruct tfp as [|p tfp]; [congruence | reflexivity]. Qed.

Lemma rasterize_nil (g : globals) (tfp : list point3) :
  tfp <> [] ->
  rasterize g tfp [] = Ok (area_of (zeros (nrows (arr g)) (ncols (arr g)))).
Proof.
  intros Hne. unfold rasterize. rewrite footprints_nil by exact Hne. reflexivity.
Qed.

(** C7.  When none of the points in force for a structure (its own
    transformed voxels, or for the root those cell 28 left) is on the
    section, the pass raises nothing, its [area] has no entry equal to one,
    and both images keep every pixel.  The structure is one of the tree as
    cell 11 leaves it: [rsp.remove_unassigned()] keeps only structures with
    a voxel, so its points are not empty, and the colormap, read off that
    tree, has it. *)
Theorem C7_empty_region (g : globals) (st : loop_state) (struct : Z) :
  let tfp' := if struct =? root_id then tfp st
              else tfp_of g (points_of (structure_voxels g struct)) in
  let loc' := if struct =? root_id then loc st
              else section_loc tfp' (section_no g) in
  tfp' <> [] ->
  loc' = [] ->
  is_Some (colormap g !! struct) ->
  exists st' area,
    loop_body g st struct = Ok st' /\
    log st' = log st ++ [entry_of g struct area] /\
    (forall r c, is_one area r c = false) /\
    (forall b r c, d_boundary (entry_of g struct area) = Some b ->
                   is_one b r c = false) /\
    (forall r c, get2 black (area_image st') r c = get2 black (area_image st) r c) /\
    (forall r c, get2 black (boundary_image st') r c = get2 black (boundary_image st) r c).
Proof.
  intros tfp' loc' Hne Hloc [color Hcol].
  set (blank := zeros (nrows (arr g)) (ncols (arr g))).
  assert (Hcur : (if negb (struct =? root_id)
                  then transform_structure g struct
                  else Ok (tfp st, loc st)) = Ok (tfp', [])).
  { subst tfp' loc'. unfold transform_structure, select_section.
    destruct (struct =? root_id); simpl.
    - rewrite Hloc. reflexivity.
    - destruct (tfp_of g (points_of (structure_voxels g struct))) eqn:E;
        [congruence|].
      simpl. rewrite Hloc. reflexivity. }
  assert (Hbnd : forall r c, is_one (boundary_of (area_of blank)) r c = false).
  { intros r c. rewrite is_one_boundary_of. unfold blank.
    rewrite area_of_zeros. reflexivity. }
  exists (LoopState tfp' []
            (paint_area (area_of blank) color (area_image st))
            (if in_regions g struct
             then paint_boundary (boundary_of (area_of blank)) (boundary_image st)
             else boundary_image st)
            (log st ++ [entry_of g struct (area_of blank)])).
  exists (area_of blank).
  split.
  { unfold loop_body. rewrite Hcur. simpl.
    rewrite rasterize_nil by exact Hne. simpl. rewrite Hcol. simpl.
    fold blank. unfold entry_of.
    destruct (in_regions g struct); reflexivity. }
  split; [reflexivity|].
  split; [intros r c; apply area_of_zeros|].
  split.
  { intros b r c. unfold entry_of. simpl.
    destruct (in_regions g struct); intros E; [|discriminate].
    injection E as <-. apply Hbnd. }
  split; intros r c; simpl.
  - rewrite get2_paint_area. unfold blank. rewrite area_of_zeros, andb_false_r.
    reflexivity.
  - destruct (in_regions g struct); [|reflexivity].
    rewrite get2_paint_boundary, Hbnd, andb_false_r. reflexivity.
Qed.

(** A witness for [C7_empty_region]: region 218 of the small specimen, whose
    only voxel lies on section 63. *)
Lemma C7_empty_region_witness :
  exists st' area,
    loop_body demo demo_start 218 = Ok st' /\
    log st' = log demo_start ++ [entry_of demo 218 area] /\
    (forall r c, is_one area r c = false) /\
    (forall b r c, d_boundary (entry_of demo 218 area) = Some b ->
                   is_one b r c = false) /\
    (forall r c, get2 black (area_image st') r c = get2 black (area_image demo_start) r c) /\
    (forall r c, get2 black (boundary_image st') r c =
                 get2 black (boundary_image demo_start) r c).
Proof.
  apply (C7_empty_region demo demo_start 218).
  - vm_compute. discriminate.
  - vm_compute. reflexivity.
  - vm_compute. eexists; reflexivity.
Defined.

(** ** Saving *)


Lemma save_outputs_prefix (g : globals) (st : loop_state) (d : disk) :
  exists (n : nat) (comp : array2 rgb),
    (n <= 3)%nat /\
    files (fst (save_outputs g st d)) =
      write_all (files d) (firstn n (outputs g st comp)) /\
    read_only (fst (save_outputs g st d)) = read_only d /\
    (n = 3%nat <-> snd (save_outputs g st d) = Ok tt).
Proof.
  destruct (save_outputs g st d) as [d' r] eqn:E.
  unfold save_outputs in E. cbv [mbind io_bind mret io_ret lift save open] in E.
  unfold outputs, write_all.
  destruct (read_only d (area_png g)) eqn:E1; simpl in E.
  { injection E as <- <-. exists 0%nat, (arr g). repeat split; try lia; discriminate. }
  destruct (read_only d (boundary_png g)) eqn:E2; simpl in E.
  { injection E as <- <-. exists 1%nat, (arr g). repeat split; try lia; discriminate. }
  destruct (_ !! section_jpg g) as [cbg|]; simpl in E.
  2: { injection E as <- <-. exists 2%nat, (arr g). repeat split; try lia; discriminate. }
  destruct (_ !! area_png g) as [fg|]; simpl in E.
  2: { injection E as <- <-. exists 2%nat, (arr g). repeat split; try lia; discriminate. }
  destruct (composite g cbg fg) as [comp|e]; simpl in E.
  2: { injection E as <- <-. exists 2%nat, (arr g). repeat split; try lia; discriminate. }
  destruct (read_only d (color_composite_png g)) eqn:E3; simpl in E.
  { injection E as <- <-. exists 2%nat, (arr g). repeat split; try lia; discriminate. }
  injection E as <- <-. exists 3%nat, comp. repeat split; lia.
Qed.


(** ** What the loop leaves untouched *)

(** C10.  Both images start as the section image.  After the loop a pixel
    that lies in no pass's [area] has its source value in the area image,
    and a pixel that lies in no drawn [boundary] has its source value in the
    boundary image; a boundary is drawn only for a structure in [regions],
    from that pass's [area]. *)
Theorem C10_frame (g : globals) (tfp0 : list point3) (loc0 : list nat)
  (order : list Z) (st : loop_state) (r c : Z) :
  map_structures g tfp0 loc0 order = Ok st ->
  map_structures g tfp0 loc0 [] = Ok (LoopState tfp0 loc0 (arr g) (arr g) []) /\
  ((forall e, In e (log st) -> is_one (d_area e) r c = false) ->
   get2 black (area_image st) r c = get2 black (arr g) r c) /\
  ((forall e b, In e (log st) -> d_boundary e = Some b -> is_one b r c = false) ->
   get2 black (boundary_image st) r c = get2 black (arr g) r c) /\
  (forall e b, In e (log st) -> d_boundary e = Some b ->
               in_regions g (d_struct e) = true /\ b = boundary_of (d_area e)).
Proof.
  intros E.
  apply map_structures_Ok in E as (_ & Hok & _ & _ & _ & _ & Ha & Hb).
  split; [reflexivity|].
  split; [|split].
  - intros Hout. rewrite Ha.
    destruct (in_bounds (nrows (arr g)) (ncols (arr g)) r c) eqn:Ein.
    + apply fold_area_step_untouched, Hout.
    + symmetry. apply get2_out, Ein.
  - intros Hout. rewrite Hb.
    destruct (in_bounds (nrows (arr g)) (ncols (arr g)) r c) eqn:Ein.
    + apply fold_boundary_step_untouched, Hout.
    + symmetry. apply get2_out, Ein.
  - intros e b Hin Eb.
    rewrite List.Forall_forall in Hok. destruct (Hok e Hin) as [He _].
    rewrite He in Eb. unfold entry_of in Eb. simpl in Eb.
    destruct (in_regions g (d_struct e)); [|discriminate].
    injection Eb as <-. split; reflexivity.
Qed.

(** A witness for [C10_frame]: the corner pixel of the small specimen. *)
Lemma C10_frame_witness :
  get2 black (area_image demo_final) 0 0 = get2 black (arr demo) 0 0 /\
  get2 black (boundary_image demo_final) 0 0 = get2 black (arr demo) 0 0.
Proof.
  assert (Harea : forallb (fun e => negb (is_one (d_area e) 0 0)) (log demo_final) = true)
    by (vm_compute; reflexivity).
  assert (Hbnd : forallb (fun e => match d_boundary e with
                                   | Some b => negb (is_one b 0 0)
                                   | None => true
                                   end) (log demo_final) = true)
    by (vm_compute; reflexivity).
  rewrite forallb_forall in Harea, Hbnd.
  destruct (C10_frame demo (tfp demo_start) (loc demo_start) demo_order demo_final 0 0
              ltac:(vm_compute; reflexivity))
    as (_ & Ha & Hb & _).
  split.
  - apply Ha. intros e Hin. apply negb_true_iff, Harea, Hin.
  - apply Hb. intros e b Hin Eb. specialize (Hbnd e Hin).
    rewrite Eb in Hbnd. apply negb_true_iff, Hbnd.
Defined.

(** * Further properties of the notebook's code *)

(** ** [get_structure_ids] (cell 14) *)

Lemma get_structure_ids_acc (acrnm_map : gmap string Z) (acrnms : list string)
  (acc ids : list Z) :
  foldM (fun regions acrnm =>
           match acrnm_map !! acrnm with
           | Some id => Ok (regions ++ [id])
           | None => Raise (KeyError (KStr acrnm))
           end) acc acrnms = Ok ids <->
  exists new, ids = acc ++ new /\
              Forall2 (fun a id => acrnm_map !! a = Some id) acrnms new.
Proof.
  revert acc; induction acrnms as [|a acrnms IH]; intros acc; simpl.
  - split.
    + intros E. injection E as <-. exists []. rewrite app_nil_r. split; constructor.
    + intros (new & -> & H). inversion H. rewrite app_nil_r. reflexivity.
  - destruct (acrnm_map !! a) as [id|] eqn:Ea; simpl.
    + rewrite IH. split.
      * intros (new & -> & H). exists (id :: new).
        rewrite <- app_assoc. split; [reflexivity|]. constructor; assumption.
      * intros (new & -> & H). inversion H as [|? id' ? new' Hid Hrest]; subst.
        assert (id' = id) by congruence. subst id'.
        exists new'. rewrite <- app_assoc. split; [reflexivity | exact Hrest].
    + split; [discriminate|].
      intros (new & _ & H). inversion H; congruence.
Qed.

Lemma get_structure_ids_raise (acrnm_map : gmap string Z) (acrnms : list string)
  (acc : list Z) (e : exn) :
  foldM (fun regions acrnm =>
           match acrnm_map !! acrnm with
           | Some id => Ok (regions ++ [id])
           | None => Raise (KeyError (KStr acrnm))
           end) acc acrnms = Raise e <->
  exists known a rest,
    acrnms = known ++ a :: rest /\
    Forall (fun x => is_Some (acrnm_map !! x)) known /\
    acrnm_map !! a = None /\ e = KeyError (KStr a).
Proof.
  revert acc; induction acrnms as [|a acrnms IH]; intros acc; simpl.
  - split; [discriminate|].
    intros (known & a & rest & E & _). destruct known; discriminate.
  - destruct (acrnm_map !! a) as [id|] eqn:Ea; simpl.
    + rewrite IH. split.
      * intros (known & b & rest & -> & Hk & Hb & ->).
        exists (a :: known), b, rest. repeat split; try assumption.
        constructor; [rewrite Ea; eexists; reflexivity | exact Hk].
      * intros (known & b & rest & E & Hk & Hb & ->).
        destruct known as [|k known]; simpl in E; injection E as -> ->.
        { congruence. }
        inversion Hk; subst. exists known, b, rest. repeat split; assumption.
    + split.
      * intros E. injection E as <-. exists [], a, acrnms.
        repeat split; [constructor | exact Ea].
      * intros (known & b & rest & E & Hk & Hb & ->).
        destruct known as [|k known]; simpl in E; injection E as -> ->.
        { reflexivity. }
        inversion Hk as [|? ? [v Hv] _]; subst. congruence.
Qed.

(** X1.  [get_structure_ids] returns the ids of the acronyms in the order
    given, one for each, exactly when every acronym is a key of the map; and
    it raises a [KeyError], for the first acronym that is not a key, exactly
    when there is one. *)
Theorem X1_get_structure_ids (acrnm_map : gmap string Z) (acrnms : list string) :
  (forall ids,
      get_structure_ids acrnm_map acrnms = Ok ids <->
      Forall2 (fun a id => acrnm_map !! a = Some id) acrnms ids) /\
  (forall e,
      get_structure_ids acrnm_map acrnms = Raise e <->
      exists known a rest,
        acrnms = known ++ a :: rest /\
        Forall (fun x => is_Some (acrnm_map !! x)) known /\
        acrnm_map !! a = None /\ e = KeyError (KStr a)).
Proof.
  split.
  - intros ids. unfold get_structure_ids. rewrite get_structure_ids_acc. split.
    + intros (new & -> & H). exact H.
    + intros H. exists ids. split; [reflexivity | exact H].
  - intros e. apply get_structure_ids_raise.
Qed.

(** ** Structure discovery (cells 28 and 30) *)

Lemma insert_unique_In (x y : Z) (l : list Z) :
  In y (insert_unique x l) <-> y = x \/ In y l.
Proof.
  induction l as [|z l IH]; simpl; [intuition congruence|].
  destruct (Z.ltb_spec x z); simpl; [intuition congruence|].
  destruct (Z.eqb_spec x z); simpl; [subst; intuition congruence|].
  rewrite IH. intuition congruence.
Qed.

Lemma np_unique_In (x : Z) (l : list Z) : In x (np_unique l) <-> In x l.
Proof.
  unfold np_unique. induction l as [|y l IH]; simpl; [tauto|].
  rewrite insert_unique_In, IH. intuition congruence.
Qed.

Lemma insert_unique_sorted (x : Z) (l : list Z) :
  StronglySorted Z.lt l -> StronglySorted Z.lt (insert_unique x l).
Proof.
  induction l as [|z l IH]; intros Hs; simpl.
  - repeat constructor.
  - inversion Hs as [|? ? Hl Hz]; subst.
    destruct (Z.ltb_spec x z).
    + constructor; [exact Hs|]. constructor; [assumption|].
      eapply List.Forall_impl; [|exact Hz]. simpl. lia.
    + destruct (Z.eqb_spec x z); [exact Hs|].
      constructor; [apply IH, Hl|].
      apply List.Forall_forall. intros y Hy. apply insert_unique_In in Hy as [->|Hy].
      * lia.
      * rewrite List.Forall_forall in Hz. apply Hz, Hy.
Qed.

Lemma np_unique_sorted (l : list Z) : StronglySorted Z.lt (np_unique l).
Proof.
  unfold np_unique. induction l as [|y l IH]; simpl; [constructor|].
  apply insert_unique_sorted, IH.
Qed.

Lemma sorted_lt_NoDup (l : list Z) : StronglySorted Z.lt l -> NoDup l.
Proof.
  induction 1 as [|x l Hl IH Hx]; constructor; [|exact IH].
  rewrite List.Forall_forall in Hx. intros Hin%list_elem_of_In. specialize (Hx x Hin). lia.
Qed.

Lemma tl_sorted_In (l : list Z) (x : Z) :
  StronglySorted Z.lt l ->
  (In x (tl l) <-> In x l /\ exists y, In y l /\ y < x).
Proof.
  intros Hs. destruct Hs as [|h t Ht Hh]; simpl; [firstorder|].
  rewrite List.Forall_forall in Hh. split.
  - intros Hin. split; [right; exact Hin|].
    exists h. split; [left; reflexivity | apply Hh, Hin].
  - intros [[<-|Hin] (y & [<-|Hy] & Hlt)]; try assumption; try lia.
    specialize (Hh y Hy). lia.
Qed.

Lemma anno_slices_acc (g : globals) (anno_loc : list Z) (acc labels : list Z) :
  foldM (fun acc x =>
           let n := Z.of_nat (length (anno g)) in
           let i := if x <? 0 then x + n else x in
           if (0 <=? i) && (i <? n)
           then Ok (acc ++ nth (Z.to_nat i) (anno g) [])
           else Raise IndexError) acc anno_loc = Ok labels ->
  labels = acc ++ flat_map (anno_slice g) anno_loc.
Proof.
  revert acc; induction anno_loc as [|k anno_loc IH]; intros acc; simpl.
  - intros E. injection E as <-. rewrite app_nil_r. reflexivity.
  - destruct (_ && _); simpl; [|discriminate].
    intros E. apply IH in E. rewrite E, <- app_assoc. reflexivity.
Qed.

(** X2.  The structures cell 28 finds are the labels of the annotation
    slices that hold a selected root voxel, each once and in ascending
    order, without the smallest of these labels: the [[1:]] drops whatever
    comes first, the background 0 when a slice holds it and the smallest
    structure id when none does. *)
Theorem X2_structures_in_section (g : globals) (s : section_state) :
  find_structures g = Ok s ->
  let root_voxels := structure_voxels g root_id in
  let label x :=
    exists i, In i (st_loc s) /\
              In x (anno_slice g (fst (fst (nth i root_voxels (0, 0, 0))))) in
  StronglySorted Z.lt (structures_in_section s) /\
  forall x, In x (structures_in_section s) <-> label x /\ exists y, label y /\ y < x.
Proof.
  intros E root_voxels label. unfold find_structures in E.
  apply bind_Ok in E as (loc & Eloc & E).
  apply bind_Ok in E as (labels & Elab & E).
  injection E as <-. simpl.
  apply anno_slices_acc in Elab. simpl in Elab.
  assert (Hlabel : forall x, In x labels <-> label x).
  { intros x. rewrite Elab, in_flat_map. unfold label. split.
    - intros (k & Hk & Hx). apply np_unique_In, in_map_iff in Hk as (i & <- & Hi).
      exists i. split; assumption.
    - intros (i & Hi & Hx). eexists. split; [|exact Hx].
      apply np_unique_In, in_map_iff. exists i. split; [reflexivity | exact Hi]. }
  pose proof (np_unique_sorted labels) as Hs.
  split.
  - destruct Hs as [|h t Ht _]; simpl; [constructor | exact Ht].
  - intros x. rewrite (tl_sorted_In _ x Hs), np_unique_In, Hlabel.
    split; intros [Hx (y & Hy & Hlt)]; (split; [exact Hx|]); exists y;
      (split; [|exact Hlt]).
    + apply Hlabel, np_unique_In, Hy.
    + apply np_unique_In, Hlabel, Hy.
Qed.

(** X2 on the small specimen. *)
Lemma X2_structures_in_section_witness :
  StronglySorted Z.lt (structures_in_section demo_section_state) /\
  forall x,
    In x (structures_in_section demo_section_state) <->
    (exists i, In i (st_loc demo_section_state) /\
               In x (anno_slice demo
                       (fst (fst (nth i (structure_voxels demo root_id) (0, 0, 0)))))) /\
    exists y,
      (exists i, In i (st_loc demo_section_state) /\
                 In y (anno_slice demo
                         (fst (fst (nth i (structure_voxels demo root_id) (0, 0, 0)))))) /\
      y < x.
Proof.
  exact (X2_structures_in_section demo demo_section_state ltac:(vm_compute; reflexivity)).
Defined.

(** X3.  With an empty root mask cell 28 does not get past [tfp[:,2]]: the
    array of transformed points is one-dimensional and the cell raises
    [IndexError]. *)
Theorem X3_empty_root_mask (g : globals) :
  structure_voxels g root_id = [] ->
  find_structures g = Raise IndexError.
Proof. intros E. unfold find_structures. rewrite E. reflexivity. Qed.

(** X3 on the small specimen with every mask emptied. *)
Lemma X3_empty_root_mask_witness :
  find_structures (with_voxels demo (fun _ => [])) = Raise IndexError.
Proof. exact (X3_empty_root_mask (with_voxels demo (fun _ => [])) eq_refl). Defined.

(** X4.  When the root mask has voxels and none of them lands on the
    section, cell 28 raises nothing: no slice of the annotation is read and
    the set of structures is empty. *)
Theorem X4_no_root_point_on_section (g : globals) :
  structure_voxels g root_id <> [] ->
  section_loc (tfp_of g (points_of (structure_voxels g root_id))) (section_no g) = [] ->
  find_structures g =
  Ok (SectionState (tfp_of g (points_of (structure_voxels g root_id))) [] []).
Proof.
  intros Hne Hloc. unfold find_structures, select_section.
  destruct (tfp_of g (points_of (structure_voxels g root_id))) as [|p tfp'] eqn:E.
  - destruct (structure_voxels g root_id); [congruence | discriminate].
  - rewrite Hloc. reflexivity.
Qed.

(** X4 on the small specimen, asked for section 10. *)
Lemma X4_no_root_point_on_section_witness :
  find_structures (with_section demo 10) =
  Ok (SectionState
        (tfp_of (with_section demo 10)
           (points_of (structure_voxels (with_section demo 10) root_id))) [] []).
Proof.
  apply (X4_no_root_point_on_section (with_section demo 10)).
  - vm_compute. discriminate.
  - vm_compute. reflexivity.
Defined.

Lemma existsb_eqb_In (x : Z) (l : list Z) :
  existsb (Z.eqb x) l = true <-> In x l.
Proof.
  rewrite existsb_exists. split.
  - intros (y & Hy & E). apply Z.eqb_eq in E. subst. exact Hy.
  - intros H. exists x. split; [exact H | apply Z.eqb_refl].
Qed.

Lemma add_regions_app (regions structures : list Z) :
  exists added,
    add_regions regions structures = structures ++ added /\
    NoDup added /\
    forall x, In x added <-> In x regions /\ ~ In x structures.
Proof.
  unfold add_regions. revert structures.
  induction regions as [|r regions IH]; intros structures; simpl.
  - exists []. rewrite app_nil_r. split; [reflexivity|].
    split; [constructor | intros x; simpl; tauto].
  - destruct (existsb (Z.eqb r) structures) eqn:E.
    + apply existsb_eqb_In in E.
      destruct (IH structures) as (added & Hres & Hnd & Hin).
      exists added. split; [exact Hres|]. split; [exact Hnd|].
      intros x. rewrite Hin. split; [tauto|].
      intros [[<-|Hx] Hn]; [contradiction | tauto].
    + assert (Hr : ~ In r structures).
      { intros H. apply existsb_eqb_In in H. congruence. }
      destruct (IH (structures ++ [r])) as (added & Hres & Hnd & Hin).
      exists (r :: added). split; [rewrite Hres, <- app_assoc; reflexivity|].
      split.
      * constructor; [|exact Hnd]. intros H%list_elem_of_In. apply Hin in H as [_ H].
        apply H, in_or_app. right. left. reflexivity.
      * intros x. simpl. rewrite Hin, in_app_iff. simpl.
        destruct (Z.eq_dec r x) as [->|Hne]; [tauto|]. tauto.
Qed.

Lemma add_regions_In_iff (regions structures : list Z) (x : Z) :
  In x (add_regions regions structures) <-> In x structures \/ In x regions.
Proof.
  destruct (add_regions_app regions structures) as (added & Hres & _ & Hin).
  rewrite Hres, in_app_iff, Hin.
  destruct (in_dec Z.eq_dec x structures); tauto.
Qed.

(** The loop of cell 30 read off position by position. *)
Lemma add_regions_positions (regions structures : list Z) :
  add_regions regions structures =
  structures ++ map (fun i => nth i regions 0)
                    (List.filter (appended structures regions)
                                 (seq 0 (length regions))).
Proof.
  induction regions as [|r regions IH] using rev_ind.
  - simpl. symmetry. apply app_nil_r.
  - assert (Hstep : add_regions (regions ++ [r]) structures =
                    if existsb (Z.eqb r) (add_regions regions structures)
                    then add_regions regions structures
                    else add_regions regions structures ++ [r]).
    { unfold add_regions. rewrite fold_left_app. reflexivity. }
    assert (Hmem : existsb (Z.eqb r) (add_regions regions structures) =
                   existsb (Z.eqb r) structures || existsb (Z.eqb r) regions).
    { apply eq_true_iff_eq.
      rewrite orb_true_iff, !existsb_eqb_In. apply add_regions_In_iff. }
    rewrite Hstep, Hmem, IH. clear Hstep Hmem IH.
    rewrite length_app, Nat.add_1_r, seq_S, List.filter_app, map_app.
    cbn [List.filter Nat.add].
    assert (Hold : map (fun i => nth i (regions ++ [r]) 0)
                     (List.filter (appended structures (regions ++ [r]))
                                  (seq 0 (length regions))) =
                   map (fun i => nth i regions 0)
                     (List.filter (appended structures regions)
                                  (seq 0 (length regions)))).
    { assert (Hf : List.filter (appended structures (regions ++ [r]))
                     (seq 0 (length regions)) =
                   List.filter (appended structures regions)
                     (seq 0 (length regions))).
      { apply filter_ext_in. intros i Hi. apply in_seq in Hi.
        unfold appended.
        rewrite app_nth1 by lia.
        rewrite firstn_app.
        replace (i - length regions)%nat with 0%nat by lia.
        simpl. rewrite app_nil_r. reflexivity. }
      rewrite Hf. apply map_ext_in. intros i Hi.
      apply filter_In in Hi as [Hi _]. apply in_seq in Hi.
      apply app_nth1. lia. }
    rewrite Hold. clear Hold.
    assert (Hlast : appended structures (regions ++ [r]) (length regions) =
                    negb (existsb (Z.eqb r) structures || existsb (Z.eqb r) regions)).
    { unfold appended. rewrite nth_middle.
      rewrite firstn_app, Nat.sub_diag, firstn_all. simpl.
      rewrite app_nil_r. symmetry. apply negb_orb. }
    rewrite Hlast.
    destruct (existsb (Z.eqb r) structures || existsb (Z.eqb r) regions);
      cbn [negb map].
    + rewrite app_nil_r. reflexivity.
    + rewrite nth_middle, app_assoc. reflexivity.
Qed.

(** X5.  The union loop of cell 30 keeps the structures found so far where
    they are and appends, in the order of [regions] and each once, exactly
    the regions that are not among them: region number [i] is appended when
    it is not among the structures and has not come earlier in [regions],
    and the appended regions stand in the order of their numbers.  The loop
    introduces no duplicate. *)
Theorem X5_add_regions (regions structures : list Z) :
  (exists added,
      add_regions regions structures = structures ++ added /\
      added = map (fun i => nth i regions 0)
                  (List.filter (appended structures regions)
                               (seq 0 (length regions))) /\
      NoDup added /\
      forall x, In x added <-> In x regions /\ ~ In x structures) /\
  (NoDup structures -> NoDup (add_regions regions structures)) /\
  (forall x, In x (add_regions regions structures) <-> In x structures \/ In x regions).
Proof.
  destruct (add_regions_app regions structures) as (added & Hres & Hnd & Hin).
  split.
  { exists added. split; [exact Hres|]. split; [|split; [exact Hnd | exact Hin]].
    pose proof (add_regions_positions regions structures) as Hpos.
    rewrite Hres in Hpos. apply app_inv_head in Hpos. exact Hpos. }
  split.
  - intros Hs. rewrite Hres. apply NoDup_app. split; [exact Hs|].
    split; [|exact Hnd].
    intros x Hx%list_elem_of_In Ha%list_elem_of_In. apply Hin in Ha. tauto.
  - intros x. apply add_regions_In_iff.
Qed.

(** The loop run on regions [[5; 3; 5; 7]] after structures [[7; 9]]: 5 and 3
    are appended in this order, the second 5 and the 7 are not. *)
Example add_regions_keeps_order :
  add_regions [5; 3; 5; 7] [7; 9] = [7; 9; 5; 3] /\
  List.filter (appended [7; 9] [5; 3; 5; 7]) (seq 0 4) = [0%nat; 1%nat].
Proof. split; reflexivity. Qed.

Lemma find_structures_NoDup (g : globals) (s : section_state) :
  find_structures g = Ok s -> NoDup (structures_in_section s).
Proof.
  unfold find_structures. intros E.
  apply bind_Ok in E as (loc & _ & E). apply bind_Ok in E as (labels & _ & E).
  injection E as <-. simpl. apply sorted_lt_NoDup.
  destruct (np_unique_sorted labels) as [|h t Ht _]; simpl; [constructor | exact Ht].
Qed.

(** X6.  When the loop of cell 34 ends, every structure found in the section
    and every region has had exactly one pass, and the passes came in
    ascending order of ancestor-chain length. *)
Theorem X6_one_pass_each (g : globals) (st : loop_state) :
  draw_structures g = Ok st ->
  exists s,
    find_structures g = Ok s /\
    Permutation (map d_struct (log st))
      (add_regions (regions g) (structures_in_section s)) /\
    NoDup (map d_struct (log st)) /\
    depth_sorted g (map d_struct (log st)).
Proof.
  unfold draw_structures. intros E.
  apply bind_Ok in E as (s & Es & E). simpl in E.
  apply map_structures_Ok in E as (Hlog & _).
  destruct (sorted_indx_order g (add_regions (regions g) (structures_in_section s)))
    as [Hperm Hsorted].
  exists s. rewrite Hlog. split; [exact Es|]. split; [exact Hperm|].
  split; [|exact Hsorted].
  rewrite Hperm.
  destruct (add_regions_app (regions g) (structures_in_section s))
    as (added & -> & Hnd & Hin).
  apply NoDup_app. split; [exact (find_structures_NoDup g s Es)|].
  split; [|exact Hnd].
  intros x Hx%list_elem_of_In Ha%list_elem_of_In. apply Hin in Ha. tauto.
Qed.

(** X6 on the small specimen. *)
Lemma X6_one_pass_each_witness :
  exists s,
    find_structures demo = Ok s /\
    Permutation (map d_struct (log demo_final))
      (add_regions (regions demo) (structures_in_section s)) /\
    NoDup (map d_struct (log demo_final)) /\
    depth_sorted demo (map d_struct (log demo_final)).
Proof.
  exact (X6_one_pass_each demo demo_final ltac:(vm_compute; reflexivity)).
Defined.

(** ** Rasterizing (cell 34) *)

Lemma shape_fill_rect (blank : array2 bool) (pq : (Z * Z) * (Z * Z)) :
  nrows (fill_rect blank pq) = nrows blank /\ ncols (fill_rect blank pq) = ncols blank.
Proof. destruct pq as [[p0 p1] [q0 q1]]. split; reflexivity. Qed.

Lemma in_slice_in_range (n : nat) (a b k : Z) :
  in_slice n a b k = true -> 0 <= k < Z.of_nat n.
Proof.
  unfold in_slice, slice_bound. rewrite andb_true_iff, Z.leb_le, Z.ltb_lt.
  destruct (Z.ltb_spec a 0), (Z.ltb_spec b 0); lia.
Qed.

Lemma get2_fill_rect (blank : array2 bool) (pq : (Z * Z) * (Z * Z)) (r c : Z) :
  get2 false (fill_rect blank pq) r c =
  in_footprint (nrows blank) (ncols blank) r c pq || get2 false blank r c.
Proof.
  destruct pq as [[p0 p1] [q0 q1]]. unfold fill_rect, in_footprint. simpl.
  rewrite get2_tabulate.
  destruct (in_bounds (nrows blank) (ncols blank) r c) eqn:E; [reflexivity|].
  rewrite (get2_out false blank r c E), orb_false_r.
  destruct (in_slice (nrows blank) p1 q1 r) eqn:Er; [|reflexivity].
  destruct (in_slice (ncols blank) p0 q0 c) eqn:Ec; [|reflexivity].
  apply in_slice_in_range in Er, Ec.
  assert (in_bounds (nrows blank) (ncols blank) r c = true)
    by (apply in_bounds_spec; lia).
  congruence.
Qed.

Lemma get2_fold_fill_rect (fps : list ((Z * Z) * (Z * Z))) (blank : array2 bool) (r c : Z) :
  nrows (fold_left fill_rect fps blank) = nrows blank /\
  ncols (fold_left fill_rect fps blank) = ncols blank /\
  get2 false (fold_left fill_rect fps blank) r c =
  existsb (in_footprint (nrows blank) (ncols blank) r c) fps || get2 false blank r c.
Proof.
  revert blank; induction fps as [|pq fps IH]; intros blank; simpl.
  - repeat split; reflexivity.
  - destruct (IH (fill_rect blank pq)) as (Hr & Hc & Hg).
    destruct (shape_fill_rect blank pq) as [Hr' Hc'].
    rewrite Hr, Hc, Hg, Hr', Hc', get2_fill_rect.
    repeat split. rewrite orb_assoc.
    f_equal. apply orb_comm.
Qed.

(** X7.  The canvas has the shape of the section image, and an entry of it
    is set exactly when the square of some footprint holds it; a square
    never reaches outside the canvas. *)
Theorem X7_canvas (H W : nat) (fps : list ((Z * Z) * (Z * Z))) (r c : Z) :
  nrows (canvas H W fps) = H /\
  ncols (canvas H W fps) = W /\
  get2 false (canvas H W fps) r c = existsb (in_footprint H W r c) fps /\
  (existsb (in_footprint H W r c) fps = true -> in_bounds H W r c = true).
Proof.
  unfold canvas.
  destruct (get2_fold_fill_rect fps (zeros H W) r c) as (Hr & Hc & Hg).
  repeat split; try assumption.
  - rewrite Hg, get2_zeros, orb_false_r. reflexivity.
  - intros E. apply existsb_exists in E as (pq & _ & E).
    unfold in_footprint in E. apply andb_true_iff in E as [Er Ec].
    apply in_slice_in_range in Er, Ec. apply in_bounds_spec. lia.
Qed.

(** X8.  How a footprint no longer than the axis is cut by it.  From a
    corner inside the axis the square is clipped at the far edge.  A square
    that starts before the axis and ends on it is dropped whole, and one
    that lies before the axis altogether is drawn as far from the far
    edge: negative corners count from the end, as Python slices do. *)
Theorem X8_footprint_slices (n : nat) (p q k : Z) :
  p <= q -> q - p <= Z.of_nat n ->
  (0 <= p -> in_slice n p q k = (p <=? k) && (k <? q) && (k <? Z.of_nat n)) /\
  (p < 0 -> 0 <= q -> in_slice n p q k = false) /\
  (q < 0 -> - Z.of_nat n <= p ->
   in_slice n p q k = (p + Z.of_nat n <=? k) && (k <? q + Z.of_nat n)).
Proof.
  intros Hpq Hlen. unfold in_slice, slice_bound.
  repeat split; intros;
    destruct (Z.ltb_spec p 0), (Z.ltb_spec q 0); try lia;
    repeat match goal with
           | |- context [?a <=? ?b] => destruct (Z.leb_spec a b)
           | |- context [?a <? ?b] => destruct (Z.ltb_spec a b)
           end; simpl; try reflexivity; lia.
Qed.

(** X8 on an axis of length 8: a square over positions -2 and -1 holds
    position 6, and a square over positions -1 and 0 holds neither 0 nor 7. *)
Lemma X8_footprint_slices_witness :
  in_slice 8 (-2) 0 6 = false /\
  in_slice 8 (-3) (-1) 6 = true /\
  in_slice 8 (-1) 1 0 = false /\
  in_slice 8 (-1) 1 7 = false.
Proof.
  pose proof (X8_footprint_slices 8 (-2) 0 6 ltac:(lia) ltac:(lia)) as (_ & H1 & _).
  pose proof (X8_footprint_slices 8 (-3) (-1) 6 ltac:(lia) ltac:(lia)) as (_ & _ & H2).
  pose proof (X8_footprint_slices 8 (-1) 1 0 ltac:(lia) ltac:(lia)) as (_ & H3 & _).
  pose proof (X8_footprint_slices 8 (-1) 1 7 ltac:(lia) ltac:(lia)) as (_ & H4 & _).
  split; [apply H1; lia|].
  split; [rewrite H2 by lia; reflexivity|].
  split; [apply H3; lia | apply H4; lia].
Defined.

(** *** The filled mask *)

Lemma flood_avoids (mask : Z -> Z -> bool) (fuel : nat) (a : array2 bool) :
  (forall r c, get2 false a r c = true -> mask r c = true) ->
  forall r c, get2 false (dilate_until_stable fuel mask a) r c = true -> mask r c = true.
Proof.
  revert a; induction fuel as [|fuel IH]; intros a Ha r c; simpl; [apply Ha|].
  destruct (array2_eqb (dilate true mask a) a); [apply Ha|].
  apply IH. clear r c. intros r c. rewrite get2_dilate, andb_true_iff.
  intros [_ E]. destruct (mask r c) eqn:Em; [reflexivity|].
  rewrite <- Em. apply Ha, E.
Qed.

Lemma shape_dilate_until_stable (mask : Z -> Z -> bool) (fuel : nat) (a : array2 bool) :
  nrows (dilate_until_stable fuel mask a) = nrows a /\
  ncols (dilate_until_stable fuel mask a) = ncols a.
Proof.
  revert a; induction fuel as [|fuel IH]; intros a; simpl; [split; reflexivity|].
  destruct (array2_eqb (dilate true mask a) a); [split; reflexivity|].
  destruct (IH (dilate true mask a)) as [-> ->]. split; reflexivity.
Qed.

(** Filling holes takes no entry away. *)
Lemma binary_fill_holes_increasing (a : array2 bool) (r c : Z) :
  get2 false a r c = true -> get2 false (binary_fill_holes a) r c = true.
Proof.
  intros E. unfold binary_fill_holes. rewrite get2_tabulate.
  rewrite (get2_false_in_bounds a r c E).
  destruct (get2 false (dilate_until_stable _ _ _) r c) eqn:Eo; [|reflexivity].
  apply flood_avoids in Eo.
  - rewrite E in Eo. discriminate.
  - intros r' c'. rewrite get2_zeros. discriminate.
Qed.

Lemma get2_binary_closing (a : array2 bool) (r c : Z) :
  get2 false (binary_closing a) r c = true <->
  get2 false (binary_dilation a) (r - 1) c = true /\
  get2 false (binary_dilation a) r (c - 1) = true /\
  get2 false (binary_dilation a) r c = true /\
  get2 false (binary_dilation a) r (c + 1) = true /\
  get2 false (binary_dilation a) (r + 1) c = true.
Proof.
  unfold binary_closing, binary_erosion. rewrite get2_erode, !andb_true_iff.
  split; [tauto|]. intros (H1 & H2 & H3 & H4 & H5). repeat split; try assumption.
  apply get2_false_in_bounds, H3.
Qed.

Lemma get2_binary_dilation (a : array2 bool) (r c : Z) :
  get2 false (binary_dilation a) r c =
  in_bounds (nrows a) (ncols a) r c &&
  (get2 false a (r - 1) c || get2 false a r (c - 1) || get2 false a r c ||
   get2 false a r (c + 1) || get2 false a (r + 1) c).
Proof. unfold binary_dilation. apply get2_dilate. Qed.

Lemma shape_area_of (blank : array2 bool) :
  nrows (area_of blank) = nrows blank /\ ncols (area_of blank) = ncols blank.
Proof. split; reflexivity. Qed.

Lemma is_one_area_of_closing (blank : array2 bool) (r c : Z) :
  is_one (area_of blank) r c =
  get2 false (binary_closing (as_bool (astype_int (binary_fill_holes blank)))) r c.
Proof.
  unfold is_one, area_of. rewrite get2_astype_int.
  destruct (get2 false _ r c); reflexivity.
Qed.

Lemma get2_filled (blank : array2 bool) (r c : Z) :
  get2 false (as_bool (astype_int (binary_fill_holes blank))) r c =
  get2 false (binary_fill_holes blank) r c.
Proof.
  rewrite get2_as_bool, get2_astype_int.
  destruct (get2 false (binary_fill_holes blank) r c); reflexivity.
Qed.

(** X9.  [area] has the shape of the canvas and never holds an entry of the
    first or last row or column: the closing erodes with the outside of the
    array counted as empty, so a structure loses what it has on the edge of
    the image. *)
Theorem X9_area_avoids_edge (blank : array2 bool) (r c : Z) :
  is_one (area_of blank) r c = true ->
  nrows (area_of blank) = nrows blank /\
  ncols (area_of blank) = ncols blank /\
  interior (nrows blank) (ncols blank) r c = true.
Proof.
  intros E. split; [reflexivity|]. split; [reflexivity|].
  rewrite is_one_area_of_closing in E.
  apply get2_binary_closing in E as (Hu & Hl & _ & Hr & Hd).
  apply get2_false_in_bounds, in_bounds_spec in Hu, Hl, Hr, Hd.
  simpl in Hu, Hl, Hr, Hd.
  unfold interior. rewrite !andb_true_iff, !Z.leb_le, !Z.ltb_lt. lia.
Qed.

(** X9 on a canvas with one footprint. *)
Lemma X9_area_avoids_edge_witness :
  nrows (area_of demo_canvas) = nrows demo_canvas /\
  ncols (area_of demo_canvas) = ncols demo_canvas /\
  interior (nrows demo_canvas) (ncols demo_canvas) 3 3 = true.
Proof.
  exact (X9_area_avoids_edge demo_canvas 3 3 ltac:(vm_compute; reflexivity)).
Defined.

(** X10.  What is on the canvas away from its edge is in [area]: filling
    holes and closing take nothing away there. *)
Theorem X10_area_keeps_footprints (blank : array2 bool) (r c : Z) :
  get2 false blank r c = true ->
  interior (nrows blank) (ncols blank) r c = true ->
  is_one (area_of blank) r c = true.
Proof.
  intros E Hint.
  unfold interior in Hint. rewrite !andb_true_iff, !Z.leb_le, !Z.ltb_lt in Hint.
  rewrite is_one_area_of_closing. apply get2_binary_closing.
  assert (Hf : get2 false (as_bool (astype_int (binary_fill_holes blank))) r c = true).
  { rewrite get2_filled. apply binary_fill_holes_increasing, E. }
  assert (Hnear : forall r' c',
             in_bounds (nrows blank) (ncols blank) r' c' = true ->
             Z.abs (r' - r) + Z.abs (c' - c) <= 1 ->
             get2 false (binary_dilation (as_bool (astype_int (binary_fill_holes blank))))
               r' c' = true).
  { intros r' c' Hb Hd. rewrite get2_binary_dilation. simpl nrows. simpl ncols.
    rewrite Hb. simpl.
    destruct (Z.eq_dec r' (r + 1)) as [->|];
      [replace c' with c by lia; replace (r + 1 - 1) with r by lia;
       rewrite Hf; reflexivity|].
    destruct (Z.eq_dec r' (r - 1)) as [->|];
      [replace c' with c by lia; replace (r - 1 + 1) with r by lia;
       rewrite Hf, !orb_true_r; reflexivity|].
    replace r' with r by lia.
    destruct (Z.eq_dec c' (c + 1)) as [->|];
      [replace (c + 1 - 1) with c by lia; rewrite Hf, !orb_true_r; reflexivity|].
    destruct (Z.eq_dec c' (c - 1)) as [->|];
      [replace (c - 1 + 1) with c by lia; rewrite Hf, !orb_true_r; reflexivity|].
    replace c' with c by lia. rewrite Hf, !orb_true_r. reflexivity. }
  repeat split; apply Hnear; try (apply in_bounds_spec; lia); lia.
Qed.

(** X10 on a canvas with one footprint. *)
Lemma X10_area_keeps_footprints_witness :
  is_one (area_of demo_canvas) 4 4 = true.
Proof.
  exact (X10_area_keeps_footprints demo_canvas 4 4 ltac:(vm_compute; reflexivity)
           ltac:(vm_compute; reflexivity)).
Defined.

Lemma inner_of_in_area (blank : array2 bool) (r c : Z) :
  get2 false (inner_of (area_of blank)) r c = true ->
  is_one (area_of blank) r c = true.
Proof.
  intros E. apply (proj1 (inner_of_ball blank r c) E r c). lia.
Qed.

(** X11.  [inner] and [boundary] split [area] in two: an entry of [area] is
    in exactly one of them, and neither holds anything else. *)
Theorem X11_boundary_and_inner (blank : array2 bool) (r c : Z) :
  is_one (area_of blank) r c =
    is_one (boundary_of (area_of blank)) r c || get2 false (inner_of (area_of blank)) r c /\
  is_one (boundary_of (area_of blank)) r c && get2 false (inner_of (area_of blank)) r c
    = false.
Proof.
  rewrite is_one_boundary_of.
  pose proof (inner_of_in_area blank r c) as Hin.
  destruct (get2 false (inner_of (area_of blank)) r c);
    [rewrite Hin by reflexivity|]; simpl;
    destruct (is_one (area_of blank) r c); split; reflexivity.
Qed.

(** ** The passes of the loop (cell 34) *)

Lemma footprints_Ok (twoD size : F64.t) (tfp : list point3) (loc : list nat) :
  tfp <> [] ->
  Forall (fun i => (i < length tfp)%nat) loc ->
  exists fps, footprints twoD size tfp loc = Ok fps /\ length fps = length loc.
Proof.
  intros Hne Hlt.
  destruct (mapped_points_rows twoD tfp (zero, zero, zero) loc Hne Hlt)
    as (mp & Emp & Edata).
  unfold footprints. rewrite Emp. simpl.
  unfold reshape_rows2, ndarray_map. simpl. rewrite Edata, !map_map.
  rewrite !even_length_flat_map, !pairs_flat_map. simpl.
  eexists. split; [reflexivity|].
  rewrite length_map, length_combine, !length_map. lia.
Qed.

Lemma rasterize_in_force (g : globals) (tfp : list point3) (loc : list nat) :
  tfp <> [] ->
  Forall (fun i => (i < length tfp)%nat) loc ->
  exists area, rasterize g tfp loc = Ok area.
Proof.
  intros Hne Hlt. unfold rasterize.
  destruct (footprints_Ok (twoD g) (size g) tfp loc Hne Hlt) as (fps & -> & _).
  eexists. reflexivity.
Qed.

Lemma tfp_of_nil (g : globals) (vs : list voxel) :
  tfp_of g (points_of vs) = [] <-> vs = [].
Proof.
  unfold tfp_of, dfp_of, points_of. split.
  - destruct vs; [reflexivity | discriminate].
  - intros ->. reflexivity.
Qed.

(** The [tfp] and [loc] a pass works with. *)
Lemma transform_structure_cases (g : globals) (struct : Z) :
  (structure_voxels g struct = [] /\ transform_structure g struct = Raise IndexError) \/
  (structure_voxels g struct <> [] /\
   exists tfp' loc',
     transform_structure g struct = Ok (tfp', loc') /\
     tfp' <> [] /\ Forall (fun i => (i < length tfp')%nat) loc').
Proof.
  unfold transform_structure, select_section.
  destruct (structure_voxels g struct) as [|v vs] eqn:E.
  - left. split; reflexivity.
  - right. split; [discriminate|].
    destruct (tfp_of g (points_of (v :: vs))) as [|p tfp'] eqn:Et.
    + apply tfp_of_nil in Et. discriminate.
    + eexists _, _. split; [reflexivity|]. split; [discriminate|].
      apply section_loc_lt.
Qed.

Lemma loop_body_cases (g : globals) (st : loop_state) (s : Z) :
  points_in_force st ->
  (s <> root_id /\ structure_voxels g s = [] /\
   loop_body g st s = Raise IndexError) \/
  ((s = root_id \/ structure_voxels g s <> []) /\ colormap g !! s = None /\
   loop_body g st s = Raise (KeyError (KInt s))) \/
  (drawable g s /\ exists st', loop_body g st s = Ok st' /\ points_in_force st').
Proof.
  intros [Hne Hlt]. unfold loop_body, drawable.
  destruct (Z.eqb_spec s root_id) as [Hroot|Hroot]; simpl.
  - destruct (rasterize_in_force g (tfp st) (loc st) Hne Hlt) as (area & ->). simpl.
    destruct (colormap g !! s) as [color|] eqn:Ec; simpl.
    + right. right. split; [split; [left; exact Hroot | eexists; reflexivity]|].
      destruct (in_regions g s); eexists; (split; [reflexivity|]); split; assumption.
    + right. left. repeat split. left. exact Hroot.
  - destruct (transform_structure_cases g s)
      as [[Hv ->]|(Hv & tfp' & loc' & -> & Hne' & Hlt')]; simpl.
    + left. repeat split; assumption.
    + destruct (rasterize_in_force g tfp' loc' Hne' Hlt') as (area & ->). simpl.
      destruct (colormap g !! s) as [color|] eqn:Ec; simpl.
      * right. right. split; [split; [right; exact Hv | eexists; reflexivity]|].
        destruct (in_regions g s); eexists; (split; [reflexivity|]); split; assumption.
      * right. left. repeat split. right. exact Hv.
Qed.

(** X12.  The loop of cell 34 raises nothing when every structure in the
    order has a colour and, unless it is the root, a voxel: no squeeze or
    reshape fails, whatever number of points lands on the section. *)
Theorem X12_loop_goes_through (g : globals) (tfp0 : list point3) (loc0 : list nat)
  (order : list Z) :
  tfp0 <> [] ->
  Forall (fun i => (i < length tfp0)%nat) loc0 ->
  Forall (drawable g) order ->
  exists st, map_structures g tfp0 loc0 order = Ok st /\ points_in_force st.
Proof.
  intros Hne Hlt Hall. unfold map_structures.
  assert (H0 : points_in_force (LoopState tfp0 loc0 (arr g) (arr g) []))
    by (split; assumption).
  revert H0. generalize (LoopState tfp0 loc0 (arr g) (arr g) []) as st0.
  induction Hall as [|s order [Hs [color Hc]] _ IH]; intros st0 H0; simpl.
  - exists st0. split; [reflexivity | exact H0].
  - destruct (loop_body_cases g st0 s H0)
      as [(Hr & Hv & _)|[(_ & Hn & _)|(_ & st1 & -> & H1)]].
    + destruct Hs; contradiction.
    + congruence.
    + simpl. apply IH, H1.
Qed.

(** X12 on the small specimen. *)
Lemma X12_loop_goes_through_witness :
  exists st,
    map_structures demo (tfp demo_start) (loc demo_start) demo_order = Ok st /\
    points_in_force st.
Proof.
  apply X12_loop_goes_through.
  - vm_compute. discriminate.
  - vm_compute. repeat constructor.
  - unfold demo_order, drawable.
    repeat (constructor;
            [split; [right; vm_compute; discriminate | vm_compute; eexists; reflexivity]|]).
    constructor.
Defined.

(** X13.  The loop of cell 34 can fail in two ways only: with [IndexError]
    at a structure other than the root that has no voxel, and with
    [KeyError] at a structure that has no colour. *)
Theorem X13_loop_exceptions (g : globals) (tfp0 : list point3) (loc0 : list nat)
  (order : list Z) (e : exn) :
  tfp0 <> [] ->
  Forall (fun i => (i < length tfp0)%nat) loc0 ->
  map_structures g tfp0 loc0 order = Raise e ->
  exists s,
    In s order /\
    ((s <> root_id /\ structure_voxels g s = [] /\ e = IndexError) \/
     (colormap g !! s = None /\ e = KeyError (KInt s))).
Proof.
  intros Hne Hlt. unfold map_structures.
  assert (H0 : points_in_force (LoopState tfp0 loc0 (arr g) (arr g) []))
    by (split; assumption).
  revert H0. generalize (LoopState tfp0 loc0 (arr g) (arr g) []) as st0.
  induction order as [|s order IH]; intros st0 H0 E; simpl in E; [discriminate|].
  destruct (loop_body_cases g st0 s H0)
    as [(Hr & Hv & Eb)|[(_ & Hn & Eb)|(_ & st1 & Eb & H1)]];
    rewrite Eb in E; simpl in E.
  - injection E as <-. exists s. split; [left; reflexivity|]. left. repeat split; assumption.
  - injection E as <-. exists s. split; [left; reflexivity|]. right. split; [assumption|reflexivity].
  - destruct (IH st1 H1 E) as (s' & Hin & Hs'). exists s'. split; [right; exact Hin | exact Hs'].
Qed.

(** X13 on the small specimen with structure 1014 in the order: it has
    neither voxel nor colour, and the pass fails for the missing voxels. *)
Lemma X13_loop_exceptions_witness :
  exists s,
    In s [8; 1014] /\
    ((s <> root_id /\ structure_voxels demo s = [] /\ IndexError = IndexError) \/
     (colormap demo !! s = None /\ IndexError = KeyError (KInt s))).
Proof.
  apply (X13_loop_exceptions demo (tfp demo_start) (loc demo_start) [8; 1014] IndexError).
  - vm_compute. discriminate.
  - vm_compute. repeat constructor.
  - vm_compute. reflexivity.
Defined.

Lemma root_is_first (g : globals) (order : list Z) :
  depth_sorted g order ->
  chains_grow g ->
  (forall s, In s order -> In root_id (ancestor_ids g s)) ->
  In root_id order ->
  exists rest, order = root_id :: rest.
Proof.
  intros Hs Htree Hroot Hin.
  destruct Hs as [|x rest _ Hx]; [destruct Hin|].
  destruct (Z.eq_dec x root_id) as [->|Hne]; [eexists; reflexivity|].
  exfalso. destruct Hin as [->|Hin]; [congruence|].
  rewrite List.Forall_forall in Hx. specialize (Hx root_id Hin).
  pose proof (Htree root_id x (Hroot x (or_introl eq_refl)) ltac:(congruence)). lia.
Qed.

(** X14.  The pass for the root transforms nothing: it rasterizes the [tfp]
    and [loc] that are there.  In an order by chain length where the root
    is in every chain, the root comes first, so these are the root points
    of cell 28. *)
Theorem X14_root_pass (g : globals) (tfp0 : list point3) (loc0 : list nat)
  (order : list Z) (st : loop_state) :
  depth_sorted g order ->
  chains_grow g ->
  (forall s, In s order -> In root_id (ancestor_ids g s)) ->
  In root_id order ->
  map_structures g tfp0 loc0 order = Ok st ->
  exists area rest,
    rasterize g tfp0 loc0 = Ok area /\
    log st = entry_of g root_id area :: rest.
Proof.
  intros Hs Htree Hroot Hin E.
  destruct (root_is_first g order Hs Htree Hroot Hin) as (rest & ->).
  unfold map_structures in E. simpl in E.
  apply bind_Ok in E as (st1 & E1 & E).
  apply loop_body_Ok in E1 as (area & color & Hras & _ & Hcur & _ & _ & Hlog).
  simpl in Hcur, Hlog. destruct Hcur as [Ht Hl]. rewrite Ht, Hl in Hras.
  apply foldM_loop_body in E as (entries & Hlog' & _).
  exists area, entries. split; [exact Hras|]. rewrite Hlog', Hlog. reflexivity.
Qed.

(** X14 on the small specimen, for the root and structure 8. *)
Lemma X14_root_pass_witness :
  exists area rest,
    rasterize demo (tfp demo_start) (loc demo_start) = Ok area /\
    log demo_root_final = entry_of demo root_id area :: rest.
Proof.
  apply (X14_root_pass demo (tfp demo_start) (loc demo_start) [997; 8]).
  - unfold depth_sorted.
    repeat (constructor; [|repeat (constructor; [vm_compute; lia|]); constructor]).
    constructor.
  - exact demo_chains_grow.
  - intros s [<-|[<-|[]]]; vm_compute; tauto.
  - left. reflexivity.
  - vm_compute. reflexivity.
Defined.

Lemma fold_boundary_step_highlight (r c : Z) (entries : list drawn) :
  fold_left (boundary_step r c) entries highlight = highlight.
Proof.
  induction entries as [|e entries IH]; simpl; [reflexivity|].
  unfold boundary_step at 2.
  destruct (d_boundary e) as [b|]; [destruct (is_one b r c)|]; exact IH.
Qed.

Lemma fold_boundary_step_covered (r c : Z) (entries : list drawn) (p : rgb) :
  (exists e b, In e entries /\ d_boundary e = Some b /\ is_one b r c = true) ->
  fold_left (boundary_step r c) entries p = highlight.
Proof.
  revert p; induction entries as [|e entries IH]; intros p (e' & b & Hin & Eb & Hone).
  - destruct Hin.
  - simpl. destruct Hin as [<-|Hin].
    + unfold boundary_step at 2. rewrite Eb, Hone.
      apply fold_boundary_step_highlight.
    + apply IH. exists e', b. repeat split; assumption.
Qed.

(** X15.  In the boundary image the order of the passes does not show: when
    the loop ends a pixel of the image has the highlight colour (0, 0, 255)
    if the boundary of some structure in [regions] holds it, and its source
    value if none does. *)
Theorem X15_boundary_image (g : globals) (tfp0 : list point3) (loc0 : list nat)
  (order : list Z) (st : loop_state) (r c : Z) :
  map_structures g tfp0 loc0 order = Ok st ->
  in_bounds (nrows (arr g)) (ncols (arr g)) r c = true ->
  ((exists e b, In e (log st) /\ d_boundary e = Some b /\ is_one b r c = true) ->
   get2 black (boundary_image st) r c = highlight) /\
  ((forall e b, In e (log st) -> d_boundary e = Some b -> is_one b r c = false) ->
   get2 black (boundary_image st) r c = get2 black (arr g) r c).
Proof.
  intros E Hin.
  apply map_structures_Ok in E as (_ & _ & _ & _ & _ & _ & _ & Hb).
  rewrite Hb, Hin. split.
  - apply fold_boundary_step_covered.
  - apply fold_boundary_step_untouched.
Qed.

(** X15 on the small specimen: pixel (3, 3) lies on the boundary of
    structure 1008. *)
Lemma X15_boundary_image_witness :
  get2 black (boundary_image demo_final) 3 3 = highlight.
Proof.
  destruct (X15_boundary_image demo (tfp demo_start) (loc demo_start) demo_order
              demo_final 3 3 ltac:(vm_compute; reflexivity) ltac:(vm_compute; reflexivity))
    as [Hcov _].
  apply Hcov.
  assert (Hex : existsb (fun e => match d_boundary e with
                                  | Some b => is_one b 3 3
                                  | None => false
                                  end) (log demo_final) = true)
    by (vm_compute; reflexivity).
  apply existsb_exists in Hex as (e & He & Hb).
  destruct (d_boundary e) as [b|] eqn:Eb; [|discriminate].
  exists e, b. split; [exact He|]. split; [exact Eb | exact Hb].
Defined.

(** ** The files (end of cell 34) *)

Lemma jpg_is_not_png (s t : string) : s +:+ ".jpg" <> t +:+ ".png".
Proof.
  revert t; induction s as [|a s IH]; intros t E; simpl in E.
  - do 4 (destruct t as [|? t]; simpl in E; [discriminate|injection E as _ E]).
    destruct t; discriminate.
  - destruct t as [|b t]; simpl in E.
    + injection E as _ E.
      do 3 (destruct s as [|? s]; simpl in E; [discriminate|injection E as _ E]).
      destruct s; discriminate.
    + injection E as _ E. exact (IH t E).
Qed.

Lemma in_series_dir_inj (g : globals) (a b : string) :
  in_series_dir g a = in_series_dir g b -> a = b.
Proof.
  unfold in_series_dir. intros E.
  do 3 apply String.app_inj in E. exact E.
Qed.

Lemma output_paths_differ (g : globals) :
  area_png g <> boundary_png g /\
  area_png g <> color_composite_png g /\
  boundary_png g <> color_composite_png g /\
  section_jpg g <> area_png g /\
  section_jpg g <> boundary_png g /\
  section_jpg g <> color_composite_png g.
Proof.
  unfold area_png, boundary_png, color_composite_png, section_jpg.
  repeat split; intros E%in_series_dir_inj; try discriminate.
  - exact (jpg_is_not_png (pretty (ID g)) "area" E).
  - exact (jpg_is_not_png (pretty (ID g)) "boundary" E).
  - exact (jpg_is_not_png (pretty (ID g)) "color_composite" E).
Qed.

(** X16.  When the loop has ended, the section jpg is on the disk with the
    shape of the section image and none of the three output paths is
    write-protected, the run succeeds and leaves [area.png] and
    [boundary.png] with the two images and [color_composite.png] with the
    composite of the jpg on the disk and the area image just saved. *)
Theorem X16_run_saves_all (g : globals) (d : disk) (st : loop_state) (cbg : array2 rgb) :
  draw_structures g = Ok st ->
  read_only d (area_png g) = false ->
  read_only d (boundary_png g) = false ->
  read_only d (color_composite_png g) = false ->
  files d !! section_jpg g = Some cbg ->
  nrows cbg = nrows (arr g) -> ncols cbg = ncols (arr g) ->
  pipeline g d =
  (Disk (<[color_composite_png g := alpha_composite g cbg (area_image st)]>
           (<[boundary_png g := boundary_image st]>
              (<[area_png g := area_image st]> (files d))))
        (read_only d),
   Ok st).
Proof.
  intros Edraw Ha Hb Hc Hjpg Hr Hcols.
  destruct (output_paths_differ g) as (Hab & _ & _ & Hja & Hjb & _).
  assert (Hshape : nrows (area_image st) = nrows (arr g) /\
                   ncols (area_image st) = ncols (arr g)).
  { unfold draw_structures in Edraw. apply bind_Ok in Edraw as (s & _ & E).
    apply map_structures_Ok in E as (_ & _ & H1 & H2 & _). split; assumption. }
  destruct Hshape as [Hra Hca].
  unfold pipeline, save_outputs. rewrite Edraw.
  cbv [mbind io_bind mret io_ret lift save open]. simpl.
  rewrite Ha. simpl. rewrite Hb. simpl.
  assert (E1 : <[boundary_png g:=boundary_image st]>
                 (<[area_png g:=area_image st]> (files d)) !! section_jpg g = Some cbg).
  { rewrite lookup_insert_ne by (intros E; apply Hjb; symmetry; exact E).
    rewrite lookup_insert_ne by (intros E; apply Hja; symmetry; exact E).
    exact Hjpg. }
  rewrite E1. simpl.
  assert (E2 : <[boundary_png g:=boundary_image st]>
                 (<[area_png g:=area_image st]> (files d)) !! area_png g
               = Some (area_image st)).
  { rewrite lookup_insert_ne by (intros E; apply Hab; symmetry; exact E).
    apply lookup_insert_eq. }
  rewrite E2. simpl.
  unfold composite. rewrite Hr, Hcols, Hra, Hca, !Nat.eqb_refl. simpl.
  rewrite Hc. reflexivity.
Qed.

(** X16 on the small specimen and a disk that holds its section jpg. *)
Lemma X16_run_saves_all_witness :
  pipeline demo (demo_disk (fun _ => false)) =
  (Disk (<[color_composite_png demo := alpha_composite demo demo_arr (area_image demo_final)]>
           (<[boundary_png demo := boundary_image demo_final]>
              (<[area_png demo := area_image demo_final]>
                 (files (demo_disk (fun _ => false))))))
        (fun _ => false),
   Ok demo_final).
Proof.
  apply (X16_run_saves_all demo (demo_disk (fun _ => false)) demo_final demo_arr);
    [ vm_compute; reflexivity | reflexivity | reflexivity | reflexivity
    | apply lookup_singleton_eq | reflexivity | reflexivity ].
Defined.

Lemma lookup_write_all_other (fs : gmap string (array2 rgb))
  (l : list (string * array2 rgb)) (path : string) :
  Forall (fun pi => fst pi <> path) l ->
  write_all fs l !! path = fs !! path.
Proof.
  unfold write_all. revert fs; induction l as [|pi l IH]; intros fs Hall; simpl.
  - reflexivity.
  - inversion Hall as [|? ? Hpi Hl]; subst.
    rewrite IH by exact Hl. apply lookup_insert_ne, Hpi.
Qed.

(** X17.  Cells 27 to 34, whether they end well or where they fail, create,
    change or remove no file other than [area.png], [boundary.png] and
    [color_composite.png], and change no permission; the section jpg, which
    an earlier cell has put on the disk, is one of the files they leave
    alone. *)
Theorem X17_other_files_untouched (g : globals) (d : disk) (path : string) :
  path <> area_png g -> path <> boundary_png g -> path <> color_composite_png g ->
  files (fst (pipeline g d)) !! path = files d !! path /\
  read_only (fst (pipeline g d)) = read_only d /\
  files (fst (pipeline g d)) !! section_jpg g = files d !! section_jpg g.
Proof.
  intros Ha Hb Hc.
  assert (Hgen : forall p, p <> area_png g -> p <> boundary_png g ->
                           p <> color_composite_png g ->
                           files (fst (pipeline g d)) !! p = files d !! p /\
                           read_only (fst (pipeline g d)) = read_only d).
  { clear. intros p Ha Hb Hc. unfold pipeline.
    cbv [mbind io_bind mret io_ret lift].
    destruct (draw_structures g) as [st|e]; [|split; reflexivity].
    destruct (save_outputs_prefix g st d) as (n & comp & _ & Hfiles & Hro & _).
    destruct (save_outputs g st d) as [d' [[]|e]]; simpl in *;
      (split; [|exact Hro]); rewrite Hfiles;
      apply lookup_write_all_other, Forall_take;
      unfold outputs; repeat constructor; simpl; congruence. }
  destruct (output_paths_differ g) as (_ & _ & _ & Hja & Hjb & Hjc).
  destruct (Hgen path Ha Hb Hc) as [H1 H2].
  destruct (Hgen (section_jpg g) Hja Hjb Hjc) as [H3 _].
  repeat split; assumption.
Qed.

(** X17 on the small specimen, for a file name cells 27 to 34 never use. *)
Lemma X17_other_files_untouched_witness :
  files (fst (pipeline demo (demo_disk (fun _ => false)))) !! "notes.txt" =
    files (demo_disk (fun _ => false)) !! "notes.txt" /\
  read_only (fst (pipeline demo (demo_disk (fun _ => false)))) =
    read_only (demo_disk (fun _ => false)) /\
  files (fst (pipeline demo (demo_disk (fun _ => false)))) !! section_jpg demo =
    files (demo_disk (fun _ => false)) !! section_jpg demo.
Proof.
  apply (X17_other_files_untouched demo (demo_disk (fun _ => false)) "notes.txt");
    vm_compute; discriminate.
Defined.

(** X18.  When the section jpg is not on the disk the run fails with
    [FileNotFoundError] at the composite, after [area.png] and
    [boundary.png] have been saved. *)
Theorem X18_missing_section_jpg (g : globals) (d : disk) (st : loop_state) :
  draw_structures g = Ok st ->
  read_only d (area_png g) = false ->
  read_only d (boundary_png g) = false ->
  files d !! section_jpg g = None ->
  pipeline g d =
  (Disk (<[boundary_png g := boundary_image st]>
           (<[area_png g := area_image st]> (files d)))
        (read_only d),
   Raise (FileNotFoundError (section_jpg g))).
Proof.
  intros Edraw Ha Hb Hjpg.
  destruct (output_paths_differ g) as (_ & _ & _ & Hja & Hjb & _).
  unfold pipeline, save_outputs. rewrite Edraw.
  cbv [mbind io_bind mret io_ret lift save open]. simpl.
  rewrite Ha. simpl. rewrite Hb. simpl.
  assert (E1 : <[boundary_png g:=boundary_image st]>
                 (<[area_png g:=area_image st]> (files d)) !! section_jpg g = None).
  { rewrite lookup_insert_ne by (intros E; apply Hjb; symmetry; exact E).
    rewrite lookup_insert_ne by (intros E; apply Hja; symmetry; exact E).
    exact Hjpg. }
  rewrite E1. reflexivity.
Qed.

(** X18 on the small specimen and an empty disk. *)
Lemma X18_missing_section_jpg_witness :
  pipeline demo empty_disk =
  (Disk (<[boundary_png demo := boundary_image demo_final]>
           (<[area_png demo := area_image demo_final]> (files empty_disk)))
        (read_only empty_disk),
   Raise (FileNotFoundError (section_jpg demo))).
Proof.
  apply (X18_missing_section_jpg demo empty_disk demo_final);
    [ vm_compute; reflexivity | reflexivity | reflexivity | apply lookup_empty ].
Defined.

(** ** Running the cells again *)

Lemma save_outputs_again (g : globals) (st : loop_state) (d : disk) :
  save_outputs g st (fst (save_outputs g st d)) = save_outputs g st d.
Proof.
  destruct (output_paths_differ g) as (Hab & Hac & Hbc & Hja & Hjb & Hjc).
  destruct d as [fs ro].
  set (a := area_png g) in *. set (b := boundary_png g) in *.
  set (c := color_composite_png g) in *. set (j := section_jpg g) in *.
  set (A := area_image st). set (B := boundary_image st).
  set (m := <[b := B]> (<[a := A]> fs)).
  assert (Hm : <[b := B]> (<[a := A]> m) = m).
  { apply map_eq. intros k. unfold m.
    destruct (decide (k = b)) as [->|Hkb]; [rewrite !lookup_insert_eq; reflexivity|].
    rewrite !(lookup_insert_ne _ b k) by congruence.
    destruct (decide (k = a)) as [->|Hka]; [rewrite !lookup_insert_eq; reflexivity|].
    rewrite !(lookup_insert_ne _ a k) by congruence.
    rewrite !(lookup_insert_ne _ b k) by congruence.
    rewrite !(lookup_insert_ne _ a k) by congruence. reflexivity. }
  assert (Hmc : forall comp, <[b := B]> (<[a := A]> (<[c := comp]> m)) = <[c := comp]> m).
  { intros comp. apply map_eq. intros k. unfold m.
    destruct (decide (k = b)) as [->|Hkb].
    { rewrite lookup_insert_eq, (lookup_insert_ne _ c b) by congruence.
      rewrite lookup_insert_eq. reflexivity. }
    rewrite (lookup_insert_ne _ b k) by congruence.
    destruct (decide (k = a)) as [->|Hka].
    { rewrite lookup_insert_eq, (lookup_insert_ne _ c a) by congruence.
      rewrite (lookup_insert_ne _ b a) by congruence.
      rewrite lookup_insert_eq. reflexivity. }
    rewrite (lookup_insert_ne _ a k) by congruence. reflexivity. }
  assert (Hcc : forall comp, <[c := comp]> (<[c := comp]> m) = <[c := comp]> m).
  { intros comp. apply map_eq. intros k.
    destruct (decide (k = c)) as [->|Hkc]; [rewrite !lookup_insert_eq; reflexivity|].
    rewrite !(lookup_insert_ne _ c k) by congruence. reflexivity. }
  assert (Hma : <[a := A]> (<[a := A]> fs) = <[a := A]> fs).
  { apply map_eq. intros k.
    destruct (decide (k = a)) as [->|Hka]; [rewrite !lookup_insert_eq; reflexivity|].
    rewrite !(lookup_insert_ne _ a k) by congruence. reflexivity. }
  assert (Hcj : forall comp, <[c := comp]> m !! j = m !! j).
  { intros comp. apply lookup_insert_ne. congruence. }
  assert (Hca : forall comp, <[c := comp]> m !! a = m !! a).
  { intros comp. apply lookup_insert_ne. congruence. }
  unfold save_outputs. cbv [mbind io_bind mret io_ret lift save open].
  cbn [files read_only].
  fold a b c j A B.
  destruct (ro a) eqn:Ea; cbn [fst files read_only];
    [rewrite Ea; reflexivity|].
  destruct (ro b) eqn:Eb; cbn [fst files read_only];
    [rewrite Ea; cbn [files read_only]; rewrite Eb, Hma; reflexivity|].
  fold m.
  destruct (m !! j) as [cbg|] eqn:Ej; cbn [fst files read_only];
    [destruct (m !! a) as [fg|] eqn:Efg; cbn [fst files read_only];
     [destruct (composite g cbg fg) as [comp|e] eqn:Ec; cbn [fst files read_only];
      [destruct (ro c) eqn:Ero; cbn [fst files read_only]|]|]|];
    repeat (cbn [fst files read_only];
            first [ rewrite Hmc | rewrite Hcc | rewrite Hcj | rewrite Hca
                  | rewrite Hm | rewrite Ea | rewrite Eb | rewrite Ej
                  | rewrite Efg | rewrite Ec | rewrite Ero ]);
    reflexivity.
Qed.

(** X21.  Cells 27 to 34 run a second time, on the disk their first run
    left, end as the first run did, with the same exception or the same
    masks and images, and leave the disk as the first run left it: the
    saves overwrite their own files, and the composite is made from the
    section jpg and the area image just saved, never from an earlier
    composite. *)
Theorem X21_second_run (g : globals) (d : disk) :
  pipeline g (fst (pipeline g d)) = pipeline g d.
Proof.
  unfold pipeline. cbv [mbind io_bind mret io_ret lift].
  destruct (draw_structures g) as [st|e]; [|reflexivity].
  pose proof (save_outputs_again g st d) as H.
  destruct (save_outputs g st d) as [d' [[]|e]] eqn:E; cbn [fst] in *;
    rewrite H; reflexivity.
Qed.

(** ** Cell 30 on a namespace that binds [regions] *)

Lemma loads_Ok (names : list string) (ns : gmap string pyobj) :
  Forall (fun n => is_Some (ns !! n)) names -> loads names ns = Ok tt.
Proof.
  unfold loads. induction 1 as [|n names [v Hv] _ IH]; cbn [foldM]; [reflexivity|].
  assert (E : load n ns = Ok v) by (unfold load; rewrite Hv; reflexivity).
  rewrite E. simpl. exact IH.
Qed.

(** X19.  Run on a namespace where [regions] and [structures_in_section]
    are bound to lists of ids (and [np] and [rsp] to anything), cell 30
    raises nothing, leaves [regions] as it is and rebinds
    [structures_in_section] to a list that holds every id of both. *)
Theorem X19_cell_30_unions (g : globals) (ns : gmap string pyobj)
  (regions structures : list Z) :
  ns !! "regions" = Some (PyIds regions) ->
  ns !! "structures_in_section" = Some (PyIds structures) ->
  is_Some (ns !! "np") -> is_Some (ns !! "rsp") ->
  exists ns',
    cell_30 g ns = Ok ns' /\
    ns' !! "regions" = Some (PyIds regions) /\
    ns' !! "structures_in_section" = Some (PyIds (add_regions regions structures)) /\
    forall x, In x regions \/ In x structures -> In x (add_regions regions structures).
Proof.
  intros Hreg Hstr Hnp Hrsp. unfold cell_30, load.
  rewrite Hreg. simpl. rewrite Hstr. simpl.
  rewrite loads_Ok by (repeat constructor; assumption). simpl.
  eexists. split; [reflexivity|].
  split; [|split].
  - rewrite lookup_insert_ne by discriminate. unfold stores; simpl.
    rewrite !lookup_insert_ne by discriminate. exact Hreg.
  - apply lookup_insert_eq.
  - intros x Hx. apply add_regions_In. tauto.
Qed.

(** X19 on the small specimen's namespace with [regions] bound to the five
    requested ids. *)
Lemma X19_cell_30_unions_witness :
  exists ns',
    cell_30 demo demo_namespace_with_regions = Ok ns' /\
    ns' !! "regions" = Some (PyIds [1008; 1014; 218; 1029; 215]) /\
    ns' !! "structures_in_section" =
      Some (PyIds (add_regions [1008; 1014; 218; 1029; 215] [8; 549; 1008])) /\
    forall x, In x [1008; 1014; 218; 1029; 215] \/ In x [8; 549; 1008] ->
              In x (add_regions [1008; 1014; 218; 1029; 215] [8; 549; 1008]).
Proof.
  apply (X19_cell_30_unions demo demo_namespace_with_regions).
  - vm_compute. reflexivity.
  - vm_compute. reflexivity.
  - vm_compute. eexists; reflexivity.
  - vm_compute. eexists; reflexivity.
Defined.

(** ** The shape of [mapped_points] *)

(** X20.  For [n] selected points [mapped_points] holds [2 n] numbers; the
    squeeze leaves it with shape [(n, 2)], except for one point, where the
    shape is [(2,)]; the reshape reads [n] rows off it in every case, and
    the loop gets [n] footprints. *)
Theorem X20_squeeze_and_reshape (twoD size : F64.t) (tfp : list point3)
  (loc : list nat) :
  tfp <> [] ->
  Forall (fun i => (i < length tfp)%nat) loc ->
  exists mp rows fps,
    mapped_points twoD tfp loc = Ok mp /\
    shape mp = (if (length loc =? 1)%nat then [2%nat] else [length loc; 2%nat]) /\
    length (data mp) = (2 * length loc)%nat /\
    reshape_rows2 mp = Ok rows /\ length rows = length loc /\
    footprints twoD size tfp loc = Ok fps /\ length fps = length loc.
Proof.
  intros Hne Hlt.
  destruct (footprints_Ok twoD size tfp loc Hne Hlt) as (fps & Efps & Hlen).
  pose proof (index_rows_xy_Ok tfp (zero, zero, zero) loc Hne Hlt) as Eidx.
  unfold mapped_points. rewrite Eidx. simpl.
  eexists _, _, fps. split; [reflexivity|]. simpl.
  split; [destruct (Nat.eqb_spec (length loc) 1) as [->|]; simpl; [reflexivity|];
          destruct (length loc) as [|[|k]]; simpl; congruence|].
  assert (Hdata : forall h : F64.t -> F64.t,
             length (map h (flat_map (fun i : nat =>
                                        [px (nth i tfp (zero, zero, zero));
                                         py (nth i tfp (zero, zero, zero))]) loc))
             = (2 * length loc)%nat).
  { intros h. rewrite length_map. clear. induction loc; simpl; lia. }
  split; [rewrite map_map; apply Hdata|].
  unfold reshape_rows2. simpl. rewrite map_map.
  rewrite even_length_flat_map, pairs_flat_map.
  split; [reflexivity|]. split; [apply length_map|].
  split; [exact Efps | exact Hlen].
Qed.

(** X20 on one selected point. *)
Lemma X20_squeeze_and_reshape_witness :
  exists mp rows fps,
    mapped_points (F64.of_Z 2) c2_tfp [0%nat] = Ok mp /\
    shape mp = [2%nat] /\
    length (data mp) = 2%nat /\
    reshape_rows2 mp = Ok rows /\ length rows = 1%nat /\
    footprints (F64.of_Z 2) (size_of (F64.of_Z 2)) c2_tfp [0%nat] = Ok fps /\
    length fps = 1%nat.
Proof.
  apply (X20_squeeze_and_reshape (F64.of_Z 2) (size_of (F64.of_Z 2)) c2_tfp [0%nat]).
  - discriminate.
  - repeat constructor.
Defined.
